(** * kata-agent, oci.go: OCI spec bookkeeping and guest hook discovery

    A shallow embedding of [writeSpecToFile], [changeToBundlePath],
    [isValidHook] and [findHooks] over an explicit model of the operating
    system state they act on (file tree, working directory, log sink),
    followed by the properties of these four functions. *)

From Stdlib Require Import ZArith List String Ascii Bool Lia.
From Stdlib Require Import Permutation Sorted DecimalString OrderedTypeEx.
From Stdlib Require Import Strings.Byte.
Import ListNotations.

Local Open Scope string_scope.
Local Open Scope list_scope.

(** ** Go's [path] / [path/filepath] (Unix flavour)

    On Linux [filepath.Join], [filepath.Dir] and [filepath.Clean] coincide
    with their [path] namesakes.  [Clean] is modelled on path elements: the
    byte loop of the library walks the elements between slashes and keeps a
    stack of the ones written so far, which is what [cleanStep] does. *)

Module path.

(** [strings.Split(s, "/")]. *)
Fixpoint split (s : string) : list string :=
  match s with
  | EmptyString => [EmptyString]
  | String c s' =>
      if Ascii.eqb c "/" then EmptyString :: split s'
      else match split s' with
           | [] => [String c EmptyString]
           | h :: t => String c h :: t
           end
  end.

Definition isRooted (p : string) : bool :=
  match p with
  | String c _ => Ascii.eqb c "/"
  | EmptyString => false
  end.

(** One element of the input against the output written so far ([out] holds
    the kept elements, innermost first).  Empty and "." elements vanish; ".."
    removes the last real element, is dropped at the root, and is kept at the
    front of a relative path. *)
Definition cleanStep (rooted : bool) (out : list string) (elem : string)
  : list string :=
  if (elem =? "") || (elem =? ".") then out
  else if elem =? ".." then
    match out with
    | top :: rest => if top =? ".." then ".." :: out else rest
    | [] => if rooted then [] else [".."]
    end
  else elem :: out.

Definition cleanElems (rooted : bool) (elems : list string) : list string :=
  rev (fold_left (cleanStep rooted) elems []).

Definition Clean (p : string) : string :=
  if p =? "" then "."
  else
    let rooted := isRooted p in
    let out := cleanElems rooted (split p) in
    if rooted then "/" ++ concat "/" out
    else match out with
         | [] => "."
         | _ => concat "/" out
         end.

(** [Join]: leading empty elements are ignored, the rest is joined with
    slashes and cleaned; all-empty input gives the empty string. *)
Fixpoint Join (elem : list string) : string :=
  match elem with
  | [] => ""
  | e :: rest => if e =? "" then Join rest else Clean (concat "/" elem)
  end.

(** The longest prefix of [s] that ends in a slash ([path[:i+1]] in [Dir]). *)
Fixpoint dirPrefix (s : string) : string :=
  match s with
  | EmptyString => ""
  | String c s' =>
      let r := dirPrefix s' in
      if r =? "" then (if Ascii.eqb c "/" then "/" else "")
      else String c r
  end.

Definition Dir (p : string) : string := Clean (dirPrefix p).

End path.

Module filepath.
Definition Join := path.Join.
Definition Dir := path.Dir.
End filepath.


(** ** Errors *)

Inductive Errno := ENOENT | ENOTDIR | EACCES | EEXIST | EISDIR | EBADF.

(** Go's [error] values met in this file: [errors.New] strings, the
    [*os.PathError] and [*os.SyscallError] of the [os] package, and whatever
    the JSON encoder reports. *)
Inductive error :=
| errorString (s : string)
| PathError (Op : string) (Path : string) (Err : Errno)
| SyscallError (Syscall : string) (Err : Errno)
| MarshalerError (s : string).

Module errors.
Definition New (text : string) : error := errorString text.
End errors.

(** The error kinds of the specification. *)
Definition InvalidSpec : error := errors.New "invalid OCI spec".
Definition InvalidBundle : error := errors.New "invalid OCI bundle".
Definition NotAFile : error := errors.New "is a directory".
Definition IsSymlink : error := errors.New "is a symbolic link".
Definition NotExecutable : error := errors.New "is not executable".

(** ** [os.FileMode] and [os.FileInfo]

    A [FileMode] is a 32-bit word: the nine low bits are the Unix permission
    bits, the type bits sit at the top. *)
Module os.

Definition FileMode := Z.

Definition ModeDir : FileMode := Z.shiftl 1 31%Z.
Definition ModeSymlink : FileMode := Z.shiftl 1 27%Z.
Definition ModePerm : FileMode := 511%Z.           (* 0777 *)

Record FileInfo := { Name : string; Mode : FileMode }.

Definition IsDir (file : FileInfo) : bool :=
  negb (Z.land (Mode file) ModeDir =? 0)%Z.

(** Flags of [OpenFile] (Linux values). *)
Definition O_RDONLY : Z := 0%Z.
Definition O_WRONLY : Z := 1%Z.
Definition O_RDWR : Z := 2%Z.
Definition O_CREATE : Z := 64%Z.
Definition O_EXCL : Z := 128%Z.
Definition O_TRUNC : Z := 512%Z.
Definition O_APPEND : Z := 1024%Z.

End os.

(** ** The relevant part of [specs.Spec] and [specs.Hook]

    Of the OCI runtime spec only [Root] is read by this file; the remaining
    fields of [specs.Spec] other than [Version] are left at their zero value. *)
Module specs.

Record Root := { Root_Path : string; Root_Readonly : bool }.

Record Spec := { Version : string; Spec_Root : option Root }.

Record Hook := {
  Hook_Path : string;
  Hook_Args : list string;
  Hook_Env : list string;
  Hook_Timeout : option Z
}.

End specs.

(** ** OCI config file *)
Definition ociConfigFile : string := "config.json".
Definition ociConfigFileMode : os.FileMode := 292%Z.  (* 0444 *)
Definition ociConfigBasePath : string := "/run/libcontainer".

(** ** The operating system state

    The file tree, as far as the agent can see it.  A directory keeps its
    entries in the order the kernel reports them.  A symbolic link is a leaf:
    its target lies outside the modelled tree, so following it fails as for a
    dangling link.  The tree holds regular files, directories and symbolic
    links; named pipes, sockets and devices are not part of it, and what is
    said about listings that may hold them is said over [os.FileInfo]. *)
#[warnings="-register-all"] Inductive node :=
| File (perm : Z) (data : list byte)
| Directory (perm : Z) (entries : list (string * node))
| Symlink (target : string).

(** The event sink behind [agentLog] (logrus entries). *)
Inductive Level := InfoLevel | WarnLevel.

Inductive FieldValue := FString (s : string) | FError (e : option error).

Record Entry := {
  entry_Level : Level;
  entry_Message : string;
  entry_Data : list (string * FieldValue)
}.

(** [privileged] is true for a process that bypasses permission checks (the
    agent runs as root in the guest); an unprivileged process is taken to own
    every node, so the owner class of the permission bits applies. *)
Record World := {
  tree : node;
  cwd : string;
  privileged : bool;
  umask : Z;
  sink : list Entry
}.

Definition setTree (w : World) (t : node) : World :=
  {| tree := t; cwd := cwd w; privileged := privileged w;
     umask := umask w; sink := sink w |}.

Definition setCwd (w : World) (d : string) : World :=
  {| tree := tree w; cwd := d; privileged := privileged w;
     umask := umask w; sink := sink w |}.

Definition addEntry (w : World) (e : Entry) : World :=
  {| tree := tree w; cwd := cwd w; privileged := privileged w;
     umask := umask w; sink := sink w ++ [e] |}.

Definition canRead (perm : Z) : bool := Z.testbit perm 8%Z.     (* 0400 *)
Definition canWrite (perm : Z) : bool := Z.testbit perm 7%Z.    (* 0200 *)
Definition canSearch (perm : Z) : bool := Z.testbit perm 6%Z.   (* 0100 *)

Fixpoint lookupEntry (name : string) (es : list (string * node)) : option node :=
  match es with
  | [] => None
  | (n, nd) :: rest => if n =? name then Some nd else lookupEntry name rest
  end.

(** Replace the entry [name] in place, or add it after the existing ones. *)
Fixpoint setEntry (name : string) (nd : node) (es : list (string * node))
  : list (string * node) :=
  match es with
  | [] => [(name, nd)]
  | (n, old) :: rest =>
      if n =? name then (n, nd) :: rest else (n, old) :: setEntry name nd rest
  end.

(** Path resolution from the root along path elements; the last element is
    not followed when it is a symbolic link. *)
Fixpoint walk (priv : bool) (n : node) (p : list string) : Errno + node :=
  match p with
  | [] => inr n
  | c :: p' =>
      match n with
      | Directory perm es =>
          if priv || canSearch perm then
            match lookupEntry c es with
            | Some ch => walk priv ch p'
            | None => inl ENOENT
            end
          else inl EACCES
      | File _ _ => inl ENOTDIR
      | Symlink _ => inl ENOENT
      end
  end.

(** Put [new] at [p]; the directories above [p] must exist. *)
Fixpoint update (n : node) (p : list string) (new : node) : node :=
  match p with
  | [] => new
  | c :: p' =>
      match n with
      | Directory perm es =>
          match p' with
          | [] => Directory perm (setEntry c new es)
          | _ =>
              match lookupEntry c es with
              | Some ch => Directory perm (setEntry c (update ch p' new) es)
              | None => n
              end
          end
      | _ => n
      end
  end.

(** The elements of the absolute path a path string names for the process:
    relative paths start from the working directory. *)
Definition resolve (w : World) (p : string) : list string :=
  path.cleanElems true
    ((if path.isRooted p then [] else path.split (cwd w)) ++ path.split p).

Definition pathString (p : list string) : string := "/" ++ concat "/" p.

Definition isDirNode (n : node) : bool :=
  match n with Directory _ _ => true | _ => false end.

(** The mode [lstat] reports for a node. *)
Definition modeOf (n : node) : os.FileMode :=
  match n with
  | File perm _ => Z.land perm os.ModePerm
  | Directory perm _ => Z.lor os.ModeDir (Z.land perm os.ModePerm)
  | Symlink _ => Z.lor os.ModeSymlink os.ModePerm
  end.

Definition lstatAt (w : World) (p : list string) : Errno + node :=
  walk (privileged w) (tree w) p.

(** [stat] follows a final symbolic link. *)
Definition statAt (w : World) (p : list string) : Errno + node :=
  match walk (privileged w) (tree w) p with
  | inr (Symlink _) => inl ENOENT
  | r => r
  end.

(** ** A state monad over [World]

    A Go result [(T, error)] whose value is unusable on failure is a sum
    [error + T]; where the source passes the value on together with the
    error it is a pair, and a [nil] error is [None]. *)
Definition M (A : Type) : Type := World -> A * World.

Definition ret {A} (a : A) : M A := fun w => (a, w).

Definition bind {A B} (m : M A) (k : A -> M B) : M B :=
  fun w => let (a, w') := m w in k a w'.

Definition gets {A} (f : World -> A) : M A := fun w => (f w, w).

Notation "x <- m ;; k" := (bind m (fun x => k))
  (at level 61, m at next level, right associativity).
Notation "' pat <- m ;; k" := (bind m (fun x => match x with pat => k end))
  (at level 61, pat pattern, m at next level, right associativity).

(** ** The [os] and [ioutil] calls the agent makes *)

(** [os.Getwd]: fails when the working directory no longer names a
    directory (it was removed under the process), and then returns the empty
    string with the error. *)
Definition os_Getwd : M (string * option error) :=
  gets (fun w =>
    match walk true (tree w) (resolve w (cwd w)) with
    | inr (Directory _ _) => (cwd w, None)
    | _ => ("", Some (SyscallError "getwd" ENOENT))
    end).

(** [os.Stat]. *)
Definition os_Stat (name : string) : M (error + os.FileInfo) :=
  gets (fun w =>
    if name =? "" then inl (PathError "stat" name ENOENT)
    else match statAt w (resolve w name) with
         | inr nd => inr {| os.Name := last (resolve w name) "/";
                            os.Mode := modeOf nd |}
         | inl e => inl (PathError "stat" name e)
         end).

(** [os.Chdir]: the target must be a directory the process may search. *)
Definition os_Chdir (dir : string) : M (option error) :=
  fun w =>
    if dir =? "" then (Some (PathError "chdir" dir ENOENT), w)
    else match statAt w (resolve w dir) with
         | inr (Directory perm _) =>
             if privileged w || canSearch perm
             then (None, setCwd w (pathString (resolve w dir)))
             else (Some (PathError "chdir" dir EACCES), w)
         | inr _ => (Some (PathError "chdir" dir ENOTDIR), w)
         | inl e => (Some (PathError "chdir" dir e), w)
         end.

(** [mkdir(2)] at a resolved location: the parent must exist and be writable,
    the name must be free; the new directory gets [perm] less the umask. *)
Definition mkdirAt (p : list string) (perm : Z) : M (option error) :=
  fun w =>
    let name := pathString p in
    match rev p with
    | [] => (Some (PathError "mkdir" name EEXIST), w)
    | c :: rparent =>
        match statAt w (rev rparent) with
        | inr (Directory dperm es) =>
            if negb (privileged w || canSearch dperm)
            then (Some (PathError "mkdir" name EACCES), w)
            else match lookupEntry c es with
                 | Some _ => (Some (PathError "mkdir" name EEXIST), w)
                 | None =>
                     if privileged w || canWrite dperm
                     then (None,
                           setTree w
                             (update (tree w) p
                                (Directory (Z.land perm (Z.lnot (umask w))) [])))
                     else (Some (PathError "mkdir" name EACCES), w)
                 end
        | inr _ => (Some (PathError "mkdir" name ENOTDIR), w)
        | inl e => (Some (PathError "mkdir" name e), w)
        end
    end.

(** [os.MkdirAll] on the resolved path, innermost element first: stat the
    path; if that fails make the parent (unless it is the root), then
    [Mkdir], and on failure look again whether the directory is there. *)
Fixpoint mkdirAllFrom (rp : list string) (perm : Z) (w : World)
  : option error * World :=
  match statAt w (rev rp) with
  | inr nd =>
      if isDirNode nd then (None, w)
      else (Some (PathError "mkdir" (pathString (rev rp)) ENOTDIR), w)
  | inl _ =>
      match rp with
      | [] => mkdirAt [] perm w
      | _ :: rparent =>
          let '(err, w1) :=
            match rparent with
            | [] => (None, w)
            | _ => mkdirAllFrom rparent perm w
            end in
          match err with
          | Some e => (Some e, w1)
          | None =>
              let '(err2, w2) := mkdirAt (rev rp) perm w1 in
              match err2 with
              | None => (None, w2)
              | Some e =>
                  match lstatAt w2 (rev rp) with
                  | inr nd => if isDirNode nd then (None, w2) else (Some e, w2)
                  | inl _ => (Some e, w2)
                  end
              end
          end
      end
  end.

Definition os_MkdirAll (name : string) (perm : os.FileMode) : M (option error) :=
  fun w =>
    if name =? "" then (Some (PathError "mkdir" name ENOENT), w)
    else mkdirAllFrom (rev (resolve w name)) perm w.

(** An open file: where it lives and the flags it was opened with.  Every
    handle here is written once, so the file offset is that of a fresh
    descriptor: 0, or the end of the file under [O_APPEND]. *)
Record OpenedFile := {
  file_name : string;
  file_node : list string;
  file_flag : Z
}.

Definition hasFlag (flag bit : Z) : bool := negb (Z.land flag bit =? 0)%Z.

Definition forWriting (flag : Z) : bool :=
  hasFlag flag os.O_WRONLY || hasFlag flag os.O_RDWR.

(** [os.OpenFile]: an existing file is opened (truncated only under
    [O_TRUNC]); a missing one is created under [O_CREATE], empty, with [perm]
    less the umask. *)
Definition os_OpenFile (name : string) (flag : Z) (perm : os.FileMode)
  : M (error + OpenedFile) :=
  fun w =>
    let fail e := (inl (PathError "open" name e), w) in
    let p := resolve w name in
    let f := {| file_name := name; file_node := p; file_flag := flag |} in
    if name =? "" then fail ENOENT
    else
      match rev p with
      | [] => if forWriting flag then fail EISDIR else (inr f, w)
      | c :: rparent =>
          match statAt w (rev rparent) with
          | inr (Directory dperm es) =>
              if negb (privileged w || canSearch dperm) then fail EACCES
              else
                match lookupEntry c es with
                | Some (File fperm data) =>
                    if hasFlag flag os.O_CREATE && hasFlag flag os.O_EXCL
                    then fail EEXIST
                    else if forWriting flag && negb (privileged w || canWrite fperm)
                    then fail EACCES
                    else if negb (forWriting flag)
                              && negb (privileged w || canRead fperm)
                    then fail EACCES
                    else if hasFlag flag os.O_TRUNC && forWriting flag
                    then (inr f,
                          setTree w (update (tree w) p (File fperm [])))
                    else (inr f, w)
                | Some (Directory _ _) =>
                    if forWriting flag then fail EISDIR else (inr f, w)
                | Some (Symlink _) => fail ENOENT
                | None =>
                    if hasFlag flag os.O_CREATE then
                      if privileged w || canWrite dperm
                      then (inr f,
                            setTree w
                              (update (tree w) p
                                 (File (Z.land perm (Z.lnot (umask w))) [])))
                      else fail EACCES
                    else fail ENOENT
                end
          | inr _ => fail ENOTDIR
          | inl e => fail e
          end
      end.

(** [Write] of an [os.File] through a fresh handle: the bytes replace what lies at
    the offset and extend the file beyond its end; nothing is cut off. *)
Definition File_Write (f : OpenedFile) (b : list byte) : M (nat * option error) :=
  fun w =>
    match walk true (tree w) (file_node f) with
    | inr (File fperm data) =>
        if forWriting (file_flag f) then
          let data' :=
            if hasFlag (file_flag f) os.O_APPEND then data ++ b
            else b ++ skipn (List.length b) data in
          ((List.length b, None),
           setTree w (update (tree w) (file_node f) (File fperm data')))
        else ((0, Some (PathError "write" (file_name f) EBADF)), w)
    | _ => ((0, Some (PathError "write" (file_name f) EBADF)), w)
    end.

(** [Close] of an [os.File]: the model keeps no descriptor table. *)
Definition File_Close (f : OpenedFile) : M (option error) := ret None.

Definition infoOf (e : string * node) : os.FileInfo :=
  {| os.Name := fst e; os.Mode := modeOf (snd e) |}.

(** [Readdir(-1)] of an [os.File] on a freshly opened directory: the
    [lstat] data of every entry, in directory order.  Opening needs read
    permission on the directory, the [lstat] of an entry search permission;
    without it the first [lstat] fails and its error names that entry. *)
Definition File_Readdir (dirname : string) (w : World)
  : error + list os.FileInfo :=
  if dirname =? "" then inl (PathError "open" dirname ENOENT)
  else match statAt w (resolve w dirname) with
       | inr (Directory perm es) =>
           if privileged w || canRead perm then
             match es with
             | [] => inr []
             | e0 :: _ =>
                 if privileged w || canSearch perm then inr (map infoOf es)
                 else inl (PathError "lstat" (dirname ++ "/" ++ fst e0) EACCES)
             end
           else inl (PathError "open" dirname EACCES)
       | inr _ => inl (PathError "readdirent" dirname ENOTDIR)
       | inl e => inl (PathError "open" dirname e)
       end.

(** [sort.Slice(list, func(i, j) bool { return list[i].Name() < list[j].Name() })]:
    file names in a directory are distinct, so the sorted order is unique. *)
Fixpoint insertByName (x : os.FileInfo) (l : list os.FileInfo) : list os.FileInfo :=
  match l with
  | [] => [x]
  | y :: l' =>
      if String.ltb (os.Name y) (os.Name x) then y :: insertByName x l'
      else x :: l
  end.

Fixpoint sortByName (l : list os.FileInfo) : list os.FileInfo :=
  match l with
  | [] => []
  | x :: l' => insertByName x (sortByName l')
  end.

(** [ioutil.ReadDir] "reads the directory named by dirname and returns a
    list of directory entries sorted by filename": it opens the directory,
    takes [Readdir(-1)], and sorts the result with the [sort.Slice] above. *)
Definition ioutil_ReadDir (dirname : string) : M (error + list os.FileInfo) :=
  gets (fun w =>
    match File_Readdir dirname w with
    | inr list => inr (sortByName list)
    | inl e => inl e
    end).

(** [agentLog.WithField(..)...Info/Warn(msg)]: one entry to the sink. *)
Definition agentLog (lvl : Level) (data : list (string * FieldValue))
    (msg : string) : M unit :=
  fun w => (tt, addEntry w {| entry_Level := lvl; entry_Message := msg;
                              entry_Data := data |}).

(** [fmt.Sprintf("%d", n)]. *)
Definition decimal (n : nat) : string := NilEmpty.string_of_uint (Nat.to_uint n).

(** ** oci.go *)

Section WriteSpec.

(** The structured encoding of a spec ([encoding/json]'s marshalling of a
    [*specs.Spec], [nil] included) is a capability of the environment. *)
Variable json_Marshal : option specs.Spec -> error + list byte.

(** [json.NewEncoder(f).Encode(v)]: the encoding and a newline, in one
    [Write]. *)
Definition json_Encode (f : OpenedFile) (v : option specs.Spec) : M (option error) :=
  match json_Marshal v with
  | inl e => ret (Some e)
  | inr b => '(_, err) <- File_Write f (b ++ [x0a]) ;; ret err
  end.

(** [writeSpecToFile] writes the container's OCI spec to
    "/run/libcontainer/<container-id>/config.json". *)
Definition writeSpecToFile (spec : option specs.Spec) (containerId : string)
  : M (option error) :=
  let configJsonDir := filepath.Join [ociConfigBasePath; containerId] in
  err <- os_MkdirAll configJsonDir 448%Z ;;
  match err with
  | Some e => ret (Some e)
  | None =>
      let configPath := filepath.Join [configJsonDir; ociConfigFile] in
      r <- os_OpenFile configPath (Z.lor os.O_WRONLY os.O_CREATE)
             ociConfigFileMode ;;
      match r with
      | inl e => ret (Some e)
      | inr f =>
          r <- json_Encode f spec ;;
          _ <- File_Close f ;;
          ret r
      end
  end.

End WriteSpec.

(** [changeToBundlePath] changes the cwd to the OCI bundle path defined as
    dirname(spec.Root.Path) and returns the old cwd. *)
Definition changeToBundlePath (spec : option specs.Spec) (containerId : string)
  : M (string * option error) :=
  '(cwd, err) <- os_Getwd ;;
  match err with
  | Some e => ret (cwd, Some e)
  | None =>
      match spec with
      | None => ret (cwd, Some (errors.New "invalid OCI spec"))
      | Some s =>
          match specs.Spec_Root s with
          | None => ret (cwd, Some (errors.New "invalid OCI spec"))
          | Some root =>
              if specs.Root_Path root =? ""
              then ret (cwd, Some (errors.New "invalid OCI spec"))
              else
                let bundlePath := filepath.Dir (specs.Root_Path root) in
                let configPath :=
                  filepath.Join [ociConfigBasePath; containerId; ociConfigFile] in
                r <- os_Stat configPath ;;
                match r with
                | inl _ => ret (cwd, Some (errors.New "invalid OCI bundle"))
                | inr _ =>
                    err <- os_Chdir bundlePath ;;
                    ret (cwd, err)
                end
          end
      end
  end.

Definition isValidHook (file : os.FileInfo) : bool * option error :=
  if os.IsDir file then (false, Some (errors.New "is a directory"))
  else
    let mode := os.Mode file in
    if negb (Z.land mode os.ModeSymlink =? 0)%Z
    then (false, Some (errors.New "is a symbolic link"))
    else
      let perm := Z.land mode os.ModePerm in
      if (Z.land perm 73 =? 0)%Z                  (* 0111 *)
      then (false, Some (errors.New "is not executable"))
      else (true, None).

(** The body of [for _, file := range files] in [findHooks], with the slice
    [hooksFound] built so far. *)
Fixpoint findHooks_range (hooksPath hookType : string)
    (files : list os.FileInfo) (hooksFound : list specs.Hook)
  : M (list specs.Hook) :=
  match files with
  | [] => ret hooksFound
  | file :: rest =>
      let name := os.Name file in
      let '(ok, err) := isValidHook file in
      if negb ok then
        _ <- agentLog WarnLevel
               [("error", FError err); ("oci-hook-name", FString name)]
               "Skipping hook" ;;
        findHooks_range hooksPath hookType rest hooksFound
      else
        _ <- agentLog InfoLevel
               [("oci-hook-name", FString name); ("oci-hook-type", FString hookType)]
               "Adding hook" ;;
        findHooks_range hooksPath hookType rest
          (hooksFound ++
             [{| specs.Hook_Path := path.Join [hooksPath; name];
                 specs.Hook_Args := [name; hookType];
                 specs.Hook_Env := [];
                 specs.Hook_Timeout := None |}])
  end.

(** [findHooks] searches guestHookPath for any OCI hooks for a given
    hookType. *)
Definition findHooks (guestHookPath hookType : string) : M (list specs.Hook) :=
  let hooksPath := path.Join [guestHookPath; hookType] in
  r <- ioutil_ReadDir hooksPath ;;
  match r with
  | inl err =>
      _ <- agentLog InfoLevel
             [("error", FError (Some err)); ("oci-hook-type", FString hookType)]
             "Skipping hook type" ;;
      ret []
  | inr files =>
      hooksFound <- findHooks_range hooksPath hookType files [] ;;
      _ <- agentLog InfoLevel [("oci-hook-type", FString hookType)]
             ("Added " ++ decimal (List.length hooksFound) ++ " hooks") ;;
      ret hooksFound
  end.

(** ** Vocabulary of the statements *)

Definition CanonicalConfigPath (containerId : string) : string :=
  filepath.Join [ociConfigBasePath; containerId; ociConfigFile].

(** Whether a path exists, as [os.Stat] sees it. *)
Definition exists_ (w : World) (name : string) : bool :=
  match fst (os_Stat name w) with
  | inr _ => true
  | inl _ => false
  end.

(** The content of the regular file at a path, if there is one. *)
Definition fileContent (w : World) (name : string) : option (list byte) :=
  match statAt w (resolve w name) with
  | inr (File _ data) => Some data
  | _ => None
  end.

(** The shape [changeToBundlePath] refuses: the spec is absent, its [Root]
    is absent, or [Root.Path] is empty. *)
Definition shapeInvalid (spec : option specs.Spec) : Prop :=
  spec = None
  \/ (exists s, spec = Some s /\ specs.Spec_Root s = None)
  \/ (exists s r, spec = Some s /\ specs.Spec_Root s = Some r
                  /\ specs.Root_Path r = "").

Definition shapeValid (spec : option specs.Spec) : Prop :=
  exists s r, spec = Some s /\ specs.Spec_Root s = Some r
              /\ specs.Root_Path r <> "".

(** [os.Getwd] answers: the working directory can be read. *)
Definition getwdSucceeds (w : World) : Prop := snd (fst (os_Getwd w)) = None.

(** The four outcomes the caller can see once the working directory was
    read. *)
Definition outcome (e : option error) : Prop :=
  e = None \/ e = Some InvalidSpec \/ e = Some InvalidBundle
  \/ exists dir errno, e = Some (PathError "chdir" dir errno).

(** What the metadata of an entry says, bit by bit: the type bits of the
    mode word and the execute bit of each permission class. *)
Definition entryIsDirectory (file : os.FileInfo) : bool :=
  Z.testbit (os.Mode file) 31%Z.
Definition entryIsSymlink (file : os.FileInfo) : bool :=
  Z.testbit (os.Mode file) 27%Z.
Definition ownerExec (file : os.FileInfo) : bool := Z.testbit (os.Mode file) 6%Z.
Definition groupExec (file : os.FileInfo) : bool := Z.testbit (os.Mode file) 3%Z.
Definition otherExec (file : os.FileInfo) : bool := Z.testbit (os.Mode file) 0%Z.

Definition anyExec (file : os.FileInfo) : bool :=
  ownerExec file || groupExec file || otherExec file.

(** Some execute bit is set in a permission word. *)
Definition executable (perm : Z) : bool :=
  Z.testbit perm 6%Z || Z.testbit perm 3%Z || Z.testbit perm 0%Z.

Definition accepted (file : os.FileInfo) : bool := fst (isValidHook file).

(** The descriptor of an accepted entry, and the event each entry of a
    listing leaves in the sink. *)
Definition hookFor (hooksPath hookType : string) (file : os.FileInfo)
  : specs.Hook :=
  {| specs.Hook_Path := path.Join [hooksPath; os.Name file];
     specs.Hook_Args := [os.Name file; hookType];
     specs.Hook_Env := [];
     specs.Hook_Timeout := None |}.

Definition eventFor (hookType : string) (file : os.FileInfo) : Entry :=
  if accepted file then
    {| entry_Level := InfoLevel; entry_Message := "Adding hook";
       entry_Data := [("oci-hook-name", FString (os.Name file));
                      ("oci-hook-type", FString hookType)] |}
  else
    {| entry_Level := WarnLevel; entry_Message := "Skipping hook";
       entry_Data := [("error", FError (snd (isValidHook file)));
                      ("oci-hook-name", FString (os.Name file))] |}.

Definition skippedType (hookType : string) (err : error) : Entry :=
  {| entry_Level := InfoLevel; entry_Message := "Skipping hook type";
     entry_Data := [("error", FError (Some err));
                    ("oci-hook-type", FString hookType)] |}.

Definition addedCount (hookType : string) (n : nat) : Entry :=
  {| entry_Level := InfoLevel;
     entry_Message := "Added " ++ decimal n ++ " hooks";
     entry_Data := [("oci-hook-type", FString hookType)] |}.

Definition addEntries (w : World) (es : list Entry) : World :=
  {| tree := tree w; cwd := cwd w; privileged := privileged w;
     umask := umask w; sink := sink w ++ es |}.

(** A directory the process can list: it exists, may be read, and, unless
    it is empty, may be searched for the [lstat] of its entries. *)
Definition listable (w : World) (dirname : string) : Prop :=
  dirname <> ""
  /\ exists perm es,
       statAt w (resolve w dirname) = inr (Directory perm es)
       /\ privileged w || canRead perm = true
       /\ (es = [] \/ privileged w || canSearch perm = true).

Definition nameLe (a b : os.FileInfo) : Prop :=
  String.leb (os.Name a) (os.Name b) = true.

Fixpoint slashFree (s : string) : bool :=
  match s with
  | EmptyString => true
  | String c s' => negb (Ascii.eqb c "/") && slashFree s'
  end.

(** A real path element: what [Clean] keeps as a name. *)
Definition normal (e : string) : bool :=
  slashFree e && negb (e =? "") && negb (e =? ".") && negb (e =? "..").

(** The shape of [Clean]'s output stack: names on top of a run of "..",
    which is empty for a rooted path. *)
Definition wfOut (rooted : bool) (out : list string) : Prop :=
  exists ns k, out = ns ++ repeat ".." k
               /\ Forall (fun e => normal e = true) ns
               /\ (rooted = true -> k = 0).

(** ** A concrete encoder and concrete guests, for running the model

    What [encoding/json] writes for a spec whose strings hold no character
    that needs escaping: the fields in declaration order, [root] left out
    when nil, [readonly] left out when false; a nil spec is [null]. *)
Definition quote (s : string) : string :=
  String (ascii_of_nat 34) s ++ String (ascii_of_nat 34) "".

Definition plainRoot (r : specs.Root) : string :=
  "{" ++ quote "path" ++ ":" ++ quote (specs.Root_Path r)
      ++ (if specs.Root_Readonly r then "," ++ quote "readonly" ++ ":true" else "")
      ++ "}".

Definition plainSpec (v : option specs.Spec) : string :=
  match v with
  | None => "null"
  | Some s =>
      "{" ++ quote "ociVersion" ++ ":" ++ quote (specs.Version s)
          ++ match specs.Spec_Root s with
             | Some r => "," ++ quote "root" ++ ":" ++ plainRoot r
             | None => ""
             end
          ++ "}"
  end.

Definition plainMarshal (v : option specs.Spec) : error + list byte :=
  inr (list_byte_of_string (plainSpec v)).

(** The bytes [json.NewEncoder(f).Encode] writes for a spec under
    [plainMarshal]. *)
Definition encoded (s : specs.Spec) : list byte :=
  list_byte_of_string (plainSpec (Some s)) ++ [x0a].

Definition specA : specs.Spec :=
  {| specs.Version := "1.0.0";
     specs.Spec_Root := Some {| specs.Root_Path := "/containers/c1/rootfs";
                                specs.Root_Readonly := true |} |}.

Definition specB : specs.Spec :=
  {| specs.Version := "1.0.0";
     specs.Spec_Root := Some {| specs.Root_Path := "/r";
                                specs.Root_Readonly := false |} |}.

(** What is left of [encoded specA] beyond the length of [encoded specB]. *)
Definition staleTail : list byte :=
  list_byte_of_string
    ("iners/c1/rootfs" ++ String (ascii_of_nat 34) "," ++ quote "readonly"
       ++ ":true}}")
  ++ [x0a].

(** A guest right after boot: "/run" exists, nothing persisted yet. *)
Definition bootTree : node :=
  Directory 493 [("run", Directory 493 []);
                 ("containers", Directory 493
                    [("c1", Directory 493 [("rootfs", Directory 493 [])])])].

Definition bootWorld : World :=
  {| tree := bootTree; cwd := "/"; privileged := true; umask := 18%Z;
     sink := [] |}.

(** The same guest as an unprivileged owner of the tree sees it. *)
Definition userWorld : World :=
  {| tree := bootTree; cwd := "/"; privileged := false; umask := 18%Z;
     sink := [] |}.

(** The same guest seen by a process whose working directory was removed
    underneath it. *)
Definition goneWorld : World :=
  {| tree := bootTree; cwd := "/gone"; privileged := true; umask := 18%Z;
     sink := [] |}.

(** A guest with a hook directory: the entries of each hook-type
    subdirectory are in the order the kernel hands them out. *)
Definition hookTree : node :=
  Directory 493 [("usr", Directory 493
    [("share", Directory 493
      [("oci", Directory 493
        [("hooks", Directory 493
          [("prestart", Directory 493
             [("d", File 420 []);
              ("c", Symlink "/bin/true");
              ("b", Directory 493 []);
              ("a", File 493 [])]);
           ("poststart", Directory 493
             [("b", File 493 []);
              ("a", File 493 [])]);
           ("poststop", File 420 []);
           ("private", Directory 0 [])])])])])].

Definition hookWorld : World :=
  {| tree := hookTree; cwd := "/"; privileged := true; umask := 18%Z;
     sink := [] |}.

(** The same hook directory for an unprivileged owner. *)
Definition hookUserWorld : World :=
  {| tree := hookTree; cwd := "/"; privileged := false; umask := 18%Z;
     sink := [] |}.

Definition guestHookPath : string := "/usr/share/oci/hooks".

(** ** Further vocabulary: frames, entries and container ids *)

(** What belongs to the process and the sink rather than to the file tree. *)
Definition sameProcess (w w' : World) : Prop :=
  cwd w' = cwd w /\ privileged w' = privileged w
  /\ umask w' = umask w /\ sink w' = sink w.

(** A directory the process may change into. *)
Definition enterable (w : World) (dir : string) : Prop :=
  dir <> ""
  /\ exists perm es,
       statAt w (resolve w dir) = inr (Directory perm es)
       /\ privileged w || canSearch perm = true.

(** The file name a descriptor carries: [Args[0]]. *)
Definition hookName (h : specs.Hook) : string := hd "" (specs.Hook_Args h).

(** An encoder that refuses every value. *)
Definition brokenMarshal (v : option specs.Spec) : error + list byte :=
  inl (MarshalerError "json: unsupported value").

(** The boot guest after [specA] was persisted for container "c1". *)
Definition persistedWorld : World :=
  snd (writeSpecToFile plainMarshal (Some specA) "c1" bootWorld).

Definition persistedUserWorld : World :=
  snd (writeSpecToFile plainMarshal (Some specA) "c1" userWorld).

(** A spec whose [Root.Path] is a bare name, relative to the bundle. *)
Definition specRel : specs.Spec :=
  {| specs.Version := "1.0.0";
     specs.Spec_Root := Some {| specs.Root_Path := "rootfs";
                                specs.Root_Readonly := false |} |}.

(** * Properties *)

(** ** Path elements *)

(** The model of [Clean], [Join] and [Dir] on the examples of the library's
    documentation. *)
Example Clean_examples :
  path.Clean "a/c" = "a/c" /\ path.Clean "a//c" = "a/c"
  /\ path.Clean "a/c/." = "a/c" /\ path.Clean "a/c/b/.." = "a/c"
  /\ path.Clean "/../a/c" = "/a/c" /\ path.Clean "/../a/b/../././/c" = "/a/c"
  /\ path.Clean "" = "." /\ path.Clean "a/../.." = "..".
Proof. repeat split. Qed.

Example Join_examples :
  path.Join ["a"; "b"; "c"] = "a/b/c" /\ path.Join ["a"; "b/c"] = "a/b/c"
  /\ path.Join ["a/b"; "../../../xyz"] = "../xyz"
  /\ path.Join [""; ""] = "" /\ path.Join ["a"; ""] = "a"
  /\ path.Join [""; "a"] = "a"
  /\ path.Join ["/run/libcontainer"; "c1"; "config.json"]
     = "/run/libcontainer/c1/config.json".
Proof. repeat split. Qed.

Example Dir_examples :
  path.Dir "/a/b/c" = "/a/b" /\ path.Dir "a/b/c" = "a/b"
  /\ path.Dir "/a/" = "/a" /\ path.Dir "a/" = "a"
  /\ path.Dir "/" = "/" /\ path.Dir "" = "." /\ path.Dir "rootfs" = ".".
Proof. repeat split. Qed.

Lemma append_assoc (a b c : string) : ((a ++ b) ++ c = a ++ (b ++ c))%string.
Proof. induction a as [|x a IH]; simpl; [reflexivity | now rewrite IH]. Qed.

Lemma split_nonempty (s : string) : path.split s <> [].
Proof.
  destruct s as [|c s]; simpl; [discriminate|].
  destruct (Ascii.eqb c "/"); [discriminate|].
  destruct (path.split s); discriminate.
Qed.

Lemma split_app_slash (a b : string) :
  path.split (a ++ "/" ++ b)%string = path.split a ++ path.split b.
Proof.
  induction a as [|c a IH]; [reflexivity|].
  cbn [append path.split]. cbn [append] in IH. rewrite IH.
  destruct (Ascii.eqb c "/"); [reflexivity|].
  pose proof (split_nonempty a) as Hne.
  destruct (path.split a); [contradiction | reflexivity].
Qed.

Lemma split_slashFree (s : string) : slashFree s = true -> path.split s = [s].
Proof.
  induction s as [|c s IH]; [reflexivity|].
  cbn [slashFree path.split]. intros H. apply andb_prop in H as [Hc Hs].
  apply negb_true_iff in Hc. rewrite Hc, (IH Hs). reflexivity.
Qed.

Lemma split_concat (l : list string) :
  l <> [] -> Forall (fun e => slashFree e = true) l ->
  path.split (concat "/" l) = l.
Proof.
  induction l as [|x l IH]; [congruence|].
  intros _ Hall. inversion Hall as [|? ? Hx Hl]; subst.
  destruct l as [|y l].
  - cbn [concat]. now apply split_slashFree.
  - cbn [concat]. rewrite split_app_slash, (split_slashFree _ Hx).
    cbn [concat] in IH. rewrite IH; [reflexivity | discriminate | assumption].
Qed.

Lemma normal_slashFree (e : string) : normal e = true -> slashFree e = true.
Proof.
  unfold normal. intros H.
  repeat (apply andb_prop in H as [H _]). exact H.
Qed.

Lemma normal_push (rooted : bool) (out : list string) (e : string) :
  normal e = true -> path.cleanStep rooted out e = e :: out.
Proof.
  unfold normal, path.cleanStep. intros H.
  apply andb_prop in H as [H H3]. apply andb_prop in H as [H H2].
  apply andb_prop in H as [_ H1].
  apply negb_true_iff in H1, H2, H3. now rewrite H1, H2, H3.
Qed.

Lemma cleanStep_cases (rooted : bool) (out : list string) (e : string) :
  slashFree e = true ->
  (e = "" \/ e = ".") /\ path.cleanStep rooted out e = out
  \/ e = ".."
  \/ normal e = true.
Proof.
  intros Hsf. unfold path.cleanStep, normal. rewrite Hsf.
  destruct (String.eqb_spec e "") as [->|H1]; [left; split; auto|].
  destruct (String.eqb_spec e ".") as [->|H2]; [left; split; auto|].
  destruct (String.eqb_spec e "..") as [->|H3]; [right; left; reflexivity|].
  right; right; reflexivity.
Qed.

Lemma cleanStep_wf (rooted : bool) (out : list string) (e : string) :
  slashFree e = true -> wfOut rooted out -> wfOut rooted (path.cleanStep rooted out e).
Proof.
  intros Hsf (ns & k & -> & Hns & Hk).
  destruct (cleanStep_cases rooted (ns ++ repeat ".." k) e Hsf)
    as [[_ ->] | [-> | Hn]].
  - now exists ns, k.
  - unfold path.cleanStep. cbn [String.eqb Ascii.eqb Bool.eqb orb].
    destruct ns as [|n ns].
    + destruct k as [|k]; cbn [app repeat].
      * destruct rooted.
        -- exists [], 0. auto.
        -- exists [], 1. repeat split; auto. discriminate.
      * cbn [String.eqb Ascii.eqb Bool.eqb].
        exists [], (S (S k)). repeat split; auto.
        intros Hr. specialize (Hk Hr). discriminate.
    + cbn [app]. inversion Hns as [|? ? Hn Hns']; subst.
      assert (Hneq : (n =? "..") = false).
      { unfold normal in Hn. apply andb_prop in Hn as [_ Hn].
        now apply negb_true_iff in Hn. }
      rewrite Hneq. now exists ns, k.
  - rewrite normal_push by assumption.
    exists (e :: ns), k. repeat split; auto.
Qed.

Lemma fold_cleanStep_wf (rooted : bool) (elems out : list string) :
  Forall (fun e => slashFree e = true) elems -> wfOut rooted out ->
  wfOut rooted (fold_left (path.cleanStep rooted) elems out).
Proof.
  revert out. induction elems as [|e elems IH]; intros out Hall Hwf; [exact Hwf|].
  inversion Hall; subst. cbn [fold_left]. apply IH; [assumption|].
  now apply cleanStep_wf.
Qed.

Lemma split_all_slashFree (s : string) :
  Forall (fun e => slashFree e = true) (path.split s).
Proof.
  induction s as [|c s IH]; cbn [path.split].
  - repeat constructor.
  - destruct (Ascii.eqb c "/") eqn:Hc; [constructor; [reflexivity | exact IH]|].
    destruct (path.split s) as [|h t]; [repeat constructor; cbn; now rewrite Hc|].
    inversion IH; subst. constructor; [|assumption].
    cbn [slashFree]. rewrite Hc. assumption.
Qed.

Lemma wfOut_nil (rooted : bool) : wfOut rooted [].
Proof. exists [], 0. repeat split; auto. Qed.

Lemma cleanElems_wf (rooted : bool) (s : string) :
  wfOut rooted (fold_left (path.cleanStep rooted) (path.split s) []).
Proof. apply fold_cleanStep_wf; [apply split_all_slashFree | apply wfOut_nil]. Qed.

Lemma fold_dotdots (k j : nat) :
  fold_left (path.cleanStep false) (repeat ".." k) (repeat ".." j)
  = repeat ".." (k + j).
Proof.
  revert j. induction k as [|k IH]; intros j; [reflexivity|].
  cbn [repeat fold_left].
  replace (path.cleanStep false (repeat ".." j) "..") with (repeat ".." (S j)).
  - rewrite IH. f_equal. lia.
  - destruct j; reflexivity.
Qed.

Lemma fold_normals (rooted : bool) (ns acc : list string) :
  Forall (fun e => normal e = true) ns ->
  fold_left (path.cleanStep rooted) (rev ns) acc = ns ++ acc.
Proof.
  induction ns as [|n ns IH]; intros Hall; [reflexivity|].
  inversion Hall; subst. cbn [rev]. rewrite fold_left_app. cbn [fold_left].
  rewrite IH by assumption. now apply normal_push.
Qed.

Lemma rev_repeat {A} (x : A) (k : nat) : rev (repeat x k) = repeat x k.
Proof.
  induction k as [|k IH]; [reflexivity|].
  cbn [repeat rev]. rewrite IH. clear IH.
  induction k as [|k IH]; [reflexivity|]. cbn [repeat app]. now rewrite IH.
Qed.

(** Cleaning what [Clean] wrote changes nothing. *)
Lemma refold (rooted : bool) (out : list string) :
  wfOut rooted out -> fold_left (path.cleanStep rooted) (rev out) [] = out.
Proof.
  intros (ns & k & -> & Hns & Hk).
  rewrite rev_app_distr, rev_repeat, fold_left_app.
  destruct rooted.
  - rewrite (Hk eq_refl). cbn [repeat fold_left]. now apply fold_normals.
  - pose proof (fold_dotdots k 0) as Hd. cbn [repeat] in Hd.
    rewrite Hd, Nat.add_0_r. now apply fold_normals.
Qed.

Lemma wfOut_slashFree (rooted : bool) (out : list string) :
  wfOut rooted out -> Forall (fun e => slashFree e = true) out.
Proof.
  intros (ns & k & -> & Hns & _). apply Forall_app. split.
  - eapply Forall_impl; [|exact Hns]. intros a. apply normal_slashFree.
  - clear. induction k; constructor; auto.
Qed.

Lemma wfOut_nonempty_elems (rooted : bool) (out : list string) :
  wfOut rooted out -> Forall (fun e => e <> "") out.
Proof.
  intros (ns & k & -> & Hns & _). apply Forall_app. split.
  - eapply Forall_impl; [|exact Hns]. intros a Ha ->. discriminate.
  - clear. induction k; constructor; auto. discriminate.
Qed.

Lemma isRooted_app (X s : string) :
  X <> "" -> path.isRooted (X ++ s) = path.isRooted X.
Proof. destruct X; [congruence | reflexivity]. Qed.

Lemma append_nonempty (X s : string) : X <> "" -> (X ++ s)%string <> "".
Proof. destruct X; [congruence | discriminate]. Qed.

Lemma Clean_nonempty (X : string) : path.Clean X <> "".
Proof.
  unfold path.Clean. destruct (X =? ""); [discriminate|].
  destruct (path.isRooted X); [discriminate|].
  pose proof (wfOut_nonempty_elems false _ (cleanElems_wf false X)) as Hne.
  unfold path.cleanElems.
  destruct (fold_left (path.cleanStep false) (path.split X) []) as [|h t] using rev_ind;
    [discriminate|].
  rewrite rev_app_distr. cbn [rev app].
  apply Forall_app in Hne as [_ Hh]. inversion Hh; subst.
  destruct (rev t); cbn [concat]; [assumption | now apply append_nonempty].
Qed.

Lemma concat_head_unrooted (h : string) (t : list string) (s : string) :
  h <> "" -> slashFree h = true ->
  path.isRooted (concat "/" (h :: t) ++ s) = false.
Proof.
  intros Hne Hsf. destruct h as [|c h]; [congruence|].
  cbn [slashFree] in Hsf. apply andb_prop in Hsf as [Hc _].
  apply negb_true_iff in Hc. destruct t; cbn; assumption.
Qed.

Lemma isRooted_Clean (X s : string) :
  X <> "" -> path.isRooted (path.Clean X ++ s) = path.isRooted X.
Proof.
  intros HX. unfold path.Clean.
  apply String.eqb_neq in HX. rewrite HX.
  destruct (path.isRooted X) eqn:Hr; [reflexivity|].
  pose proof (cleanElems_wf false X) as Hwf.
  pose proof (wfOut_nonempty_elems _ _ Hwf) as Hne.
  pose proof (wfOut_slashFree _ _ Hwf) as Hsf.
  unfold path.cleanElems.
  destruct (fold_left (path.cleanStep false) (path.split X) []) as [|h t] using rev_ind;
    [reflexivity|].
  rewrite rev_app_distr. cbn [rev app].
  apply Forall_app in Hne as [_ Hh]. inversion Hh; subst.
  apply Forall_app in Hsf as [_ Hs]. inversion Hs; subst.
  now apply concat_head_unrooted.
Qed.

(** Reading back a cleaned path leaves [Clean]'s stack as it was. *)
Lemma fold_split_Clean (X : string) :
  X <> "" ->
  fold_left (path.cleanStep (path.isRooted X)) (path.split (path.Clean X)) []
  = fold_left (path.cleanStep (path.isRooted X)) (path.split X) [].
Proof.
  intros HX. unfold path.Clean, path.cleanElems.
  apply String.eqb_neq in HX. rewrite HX.
  pose proof (cleanElems_wf (path.isRooted X) X) as Hwf.
  pose proof (wfOut_slashFree _ _ Hwf) as Hsf.
  pose proof (refold _ _ Hwf) as Hre.
  set (out := fold_left (path.cleanStep (path.isRooted X)) (path.split X) []) in *.
  apply Forall_rev in Hsf.
  destruct (path.isRooted X).
  - change ("/" ++ concat "/" (rev out))%string
      with (String "/" (concat "/" (rev out))).
    cbn [path.split Ascii.eqb Bool.eqb fold_left].
    change (path.cleanStep true [] "") with (@nil string).
    destruct (rev out) as [|h t] eqn:Hrev.
    + cbn. cbn in Hre. exact Hre.
    + rewrite split_concat; [exact Hre | discriminate | exact Hsf].
  - destruct (rev out) as [|h t] eqn:Hrev.
    + cbn. cbn in Hre. exact Hre.
    + rewrite split_concat; [exact Hre | discriminate | exact Hsf].
Qed.

Lemma Clean_append (X n : string) :
  X <> "" ->
  path.Clean (path.Clean X ++ "/" ++ n) = path.Clean (X ++ "/" ++ n).
Proof.
  intros HX. unfold path.Clean at 1 3.
  pose proof (append_nonempty (path.Clean X) ("/" ++ n) (Clean_nonempty X)) as H1.
  pose proof (append_nonempty X ("/" ++ n) HX) as H2.
  apply String.eqb_neq in H1, H2. rewrite H1, H2.
  rewrite isRooted_Clean, isRooted_app by assumption.
  unfold path.cleanElems.
  rewrite !split_app_slash, !fold_left_app, fold_split_Clean by assumption.
  reflexivity.
Qed.

(** Joining in two steps or in one gives the same path. *)
Lemma Join_nested (a b c : string) :
  path.Join [path.Join [a; b]; c] = path.Join [a; b; c].
Proof.
  cbn [path.Join].
  destruct (String.eqb_spec a "") as [->|Ha].
  - destruct (String.eqb_spec b "") as [->|Hb]; [reflexivity|].
    cbn [concat].
    pose proof (Clean_nonempty b) as Hc. apply String.eqb_neq in Hc. rewrite Hc.
    now apply Clean_append.
  - cbn [concat].
    pose proof (Clean_nonempty (a ++ "/" ++ b)) as Hc.
    apply String.eqb_neq in Hc. rewrite Hc.
    rewrite Clean_append by now apply append_nonempty.
    now rewrite append_assoc.
Qed.

(** ** The file tree *)

Lemma lookup_setEntry (c : string) (new : node) (es : list (string * node)) :
  lookupEntry c (setEntry c new es) = Some new.
Proof.
  induction es as [|[n old] es IH]; cbn [setEntry lookupEntry].
  - now rewrite String.eqb_refl.
  - destruct (n =? c) eqn:Hn; cbn [lookupEntry]; now rewrite Hn.
Qed.

Lemma walk_app (priv : bool) (p1 p2 : list string) (n : node) :
  walk priv n (p1 ++ p2) =
  match walk priv n p1 with
  | inr m => walk priv m p2
  | inl e => inl e
  end.
Proof.
  revert n. induction p1 as [|c p1 IH]; intros n; [reflexivity|].
  cbn [app walk]. destruct n as [| perm es |]; try reflexivity.
  destruct (priv || canSearch perm); [|reflexivity].
  destruct (lookupEntry c es); [apply IH | reflexivity].
Qed.

(** Replacing an existing node: the path then leads to the new node. *)
Lemma walk_update (priv : bool) (p : list string) (n x new : node) :
  walk priv n p = inr x -> walk priv (update n p new) p = inr new.
Proof.
  revert n. induction p as [|c p IH]; intros n H; [reflexivity|].
  cbn [walk] in H. destruct n as [| perm es |]; try discriminate.
  destruct (priv || canSearch perm) eqn:Hs; [|discriminate].
  destruct (lookupEntry c es) as [ch|] eqn:Hl; [|discriminate].
  cbn [update]. rewrite Hl. destruct p as [|c' p].
  - cbn [walk]. now rewrite Hs, lookup_setEntry.
  - cbn [walk] in *. rewrite Hs, lookup_setEntry. now apply IH.
Qed.

(** Adding (or replacing) an entry of an existing, searchable directory. *)
Lemma walk_update_entry (priv : bool) (parent : list string) (c : string)
    (n new : node) (dperm : Z) (es : list (string * node)) :
  walk priv n parent = inr (Directory dperm es) ->
  priv || canSearch dperm = true ->
  walk priv (update n (parent ++ [c]) new) (parent ++ [c]) = inr new.
Proof.
  revert n. induction parent as [|d parent IH]; intros n H Hs.
  - cbn [walk] in H. injection H as ->.
    cbn [app update walk]. now rewrite Hs, lookup_setEntry.
  - cbn [walk] in H. destruct n as [| perm es' |]; try discriminate.
    destruct (priv || canSearch perm) eqn:Hs'; [|discriminate].
    destruct (lookupEntry d es') as [ch|] eqn:Hl; [|discriminate].
    cbn [app update]. rewrite Hl.
    destruct (parent ++ [c]) as [|c' q] eqn:Hq; [now destruct parent|].
    cbn [walk]. rewrite Hs', lookup_setEntry.
    change (walk priv (update ch (c' :: q) new) (c' :: q) = inr new).
    now apply IH.
Qed.

Lemma walk_privileged (priv : bool) (p : list string) (n x : node) :
  walk priv n p = inr x -> walk true n p = inr x.
Proof.
  revert n. induction p as [|c p IH]; intros n H; [exact H|].
  cbn [walk] in *. destruct n as [| perm es |]; try discriminate.
  destruct (priv || canSearch perm); [|discriminate]. cbn [orb].
  destruct (lookupEntry c es); [now apply IH | discriminate].
Qed.

Lemma statAt_dir_walk (w : World) (p : list string) (perm : Z)
    (es : list (string * node)) :
  statAt w p = inr (Directory perm es) ->
  walk (privileged w) (tree w) p = inr (Directory perm es).
Proof.
  unfold statAt. destruct (walk (privileged w) (tree w) p) as [e|[]]; congruence.
Qed.

(** ** The [os] calls *)

(** A successful [OpenFile] for writing leaves a regular file at the resolved
    path, and touches nothing but the tree. *)
Lemma os_OpenFile_file (name : string) (flag perm : Z) (w w' : World)
    (f : OpenedFile) :
  os_OpenFile name flag perm w = (inr f, w') ->
  forWriting flag = true ->
  f = {| file_name := name; file_node := resolve w name; file_flag := flag |}
  /\ cwd w' = cwd w /\ privileged w' = privileged w /\ sink w' = sink w
  /\ exists fperm data,
       walk (privileged w) (tree w') (resolve w name) = inr (File fperm data).
Proof.
  unfold os_OpenFile. intros H Hw. rewrite Hw in H.
  destruct (name =? ""); [discriminate|].
  destruct (rev (resolve w name)) as [|c rparent] eqn:Hrev; [discriminate|].
  assert (Hp : resolve w name = rev rparent ++ [c]).
  { rewrite <- (rev_involutive (resolve w name)), Hrev. reflexivity. }
  destruct (statAt w (rev rparent)) as [e|[| dperm es |]] eqn:Hst; try discriminate.
  apply statAt_dir_walk in Hst.
  destruct (privileged w || canSearch dperm) eqn:Hs; [|discriminate].
  cbn [negb] in H.
  destruct (lookupEntry c es) as [[fperm data| |]|] eqn:Hl; try discriminate.
  - destruct (hasFlag flag os.O_CREATE && hasFlag flag os.O_EXCL); [discriminate|].
    cbn [andb negb] in H.
    destruct (negb (privileged w || canWrite fperm)); [discriminate|].
    destruct (hasFlag flag os.O_TRUNC && true) eqn:Ht;
      injection H as <- <-; repeat split; try reflexivity.
    + exists fperm, []. cbn [tree setTree]. rewrite Hp.
      eapply walk_update_entry; eassumption.
    + exists fperm, data. rewrite Hp, walk_app, Hst. cbn [walk].
      now rewrite Hs, Hl.
  - destruct (hasFlag flag os.O_CREATE); [|discriminate].
    destruct (privileged w || canWrite dperm); [|discriminate].
    injection H as <- <-; repeat split; try reflexivity.
    eexists _, []. cbn [tree setTree]. rewrite Hp.
    eapply walk_update_entry; eassumption.
Qed.

(** A successful [Write] keeps the file where it is and changes only its
    content. *)
Lemma File_Write_file (f : OpenedFile) (b : list byte) (w w' : World)
    (k : nat) (priv : bool) (fperm : Z) (data : list byte) :
  File_Write f b w = ((k, None), w') ->
  walk priv (tree w) (file_node f) = inr (File fperm data) ->
  cwd w' = cwd w /\ privileged w' = privileged w /\ sink w' = sink w
  /\ walk priv (tree w') (file_node f)
     = inr (File fperm (if hasFlag (file_flag f) os.O_APPEND then data ++ b
                        else b ++ skipn (List.length b) data)).
Proof.
  unfold File_Write. intros H Hwalk.
  rewrite (walk_privileged _ _ _ _ Hwalk) in H.
  destruct (forWriting (file_flag f)); [|discriminate].
  injection H as _ <-. repeat split; try reflexivity.
  cbn [tree setTree]. eapply walk_update; eassumption.
Qed.

Lemma resolve_rooted (w : World) (p : string) :
  path.isRooted p = true -> resolve w p = path.cleanElems true (path.split p).
Proof. unfold resolve. now intros ->. Qed.

Lemma Join_base_rooted (rest : list string) :
  path.isRooted (path.Join (ociConfigBasePath :: rest)) = true.
Proof.
  cbn [path.Join ociConfigBasePath String.eqb Ascii.eqb Bool.eqb].
  unfold path.Clean. destruct rest; reflexivity.
Qed.

Lemma CanonicalConfigPath_nested (containerId : string) :
  filepath.Join [filepath.Join [ociConfigBasePath; containerId]; ociConfigFile]
  = CanonicalConfigPath containerId.
Proof. apply Join_nested. Qed.

Lemma CanonicalConfigPath_nonempty (containerId : string) :
  (CanonicalConfigPath containerId =? "") = false.
Proof.
  pose proof (Join_base_rooted [containerId; ociConfigFile]) as H.
  unfold CanonicalConfigPath, filepath.Join.
  destruct (path.Join [ociConfigBasePath; containerId; ociConfigFile]);
    [discriminate | reflexivity].
Qed.

(** ** [writeSpecToFile] *)

Section WriteSpecProps.

Variable json_Marshal : option specs.Spec -> error + list byte.

(** What a successful [writeSpecToFile] leaves behind: a regular file at the
    canonical path whose content starts with the encoding and a newline,
    followed by whatever the file held beyond that length when it was
    opened. *)
Lemma writeSpecToFile_success (spec : option specs.Spec) (containerId : string)
    (w w' : World) :
  writeSpecToFile json_Marshal spec containerId w = (None, w') ->
  exists b fperm old,
    json_Marshal spec = inr b
    /\ statAt w' (resolve w' (CanonicalConfigPath containerId))
       = inr (File fperm ((b ++ [x0a]) ++ skipn (List.length (b ++ [x0a])) old)).
Proof.
  unfold writeSpecToFile, bind. intros H.
  destruct (os_MkdirAll _ _ w) as [[e|] w1]; [discriminate|].
  rewrite CanonicalConfigPath_nested in H.
  destruct (os_OpenFile _ _ _ w1) as [[e|f] w2] eqn:Hopen; [discriminate|].
  unfold json_Encode in H. destruct (json_Marshal spec) as [e|b]; [discriminate|].
  unfold bind in H.
  destruct (File_Write f _ w2) as [[k err] w3] eqn:Hwr.
  cbn in H. injection H as -> ->.
  apply os_OpenFile_file in Hopen
    as (-> & Hcwd & Hpriv & _ & fperm & old & Hwalk); [|reflexivity].
  eapply File_Write_file in Hwr as (_ & Hpriv' & _ & Hwalk'); [|exact Hwalk].
  exists b, fperm, old. split; [reflexivity|].
  pose proof (Join_base_rooted [containerId; ociConfigFile]) as Hr.
  unfold statAt. rewrite Hpriv', Hpriv.
  rewrite (resolve_rooted w') by exact Hr.
  cbn [file_node file_flag] in Hwalk'.
  rewrite (resolve_rooted w1) in Hwalk' by exact Hr.
  rewrite Hwalk'. reflexivity.
Qed.

(** C9: a successful persist establishes the canonical config file: the
    existence check of [CanonicalConfigPath id] right after it answers
    true, for every container id and every spec. *)
Theorem persist_then_exists (spec : option specs.Spec) (containerId : string)
    (w w' : World) :
  writeSpecToFile json_Marshal spec containerId w = (None, w') ->
  exists_ w' (CanonicalConfigPath containerId) = true.
Proof.
  intros H. apply writeSpecToFile_success in H as (b & fperm & old & _ & Hst).
  unfold exists_, os_Stat, gets. cbn [fst].
  rewrite CanonicalConfigPath_nonempty, Hst. reflexivity.
Qed.

End WriteSpecProps.

Lemma persist_then_exists_witness :
  exists w',
    writeSpecToFile plainMarshal (Some specA) "c1" bootWorld = (None, w')
    /\ exists_ w' (CanonicalConfigPath "c1") = true.
Proof.
  eexists. split.
  - vm_compute. reflexivity.
  - eapply (persist_then_exists plainMarshal (Some specA) "c1" bootWorld).
    vm_compute. reflexivity.
Defined.

(** ** [changeToBundlePath] *)

Lemma os_Getwd_world (w : World) : snd (os_Getwd w) = w.
Proof. reflexivity. Qed.

Lemma getwdSucceeds_cwd (w : World) :
  getwdSucceeds w -> os_Getwd w = ((cwd w, None), w).
Proof.
  unfold getwdSucceeds, os_Getwd, gets. cbn [fst snd].
  destruct (walk true (tree w) (resolve w (cwd w))) as [e|[]];
    cbn [snd]; congruence.
Qed.

Lemma getwd_fails (w : World) :
  ~ getwdSucceeds w ->
  os_Getwd w = (("", Some (SyscallError "getwd" ENOENT)), w).
Proof.
  unfold getwdSucceeds, os_Getwd, gets. cbn [fst snd].
  destruct (walk true (tree w) (resolve w (cwd w))) as [e|[]];
    cbn [snd]; congruence.
Qed.

Lemma getwdSucceeds_dec (w : World) : {getwdSucceeds w} + {~ getwdSucceeds w}.
Proof.
  unfold getwdSucceeds.
  destruct (snd (fst (os_Getwd w))); [right; discriminate | left; reflexivity].
Qed.

(** When the working directory cannot be read, nothing else is looked at:
    the caller gets [Getwd]'s empty string and its error. *)
Lemma changeToBundlePath_getwd_error (spec : option specs.Spec)
    (containerId : string) (w : World) :
  ~ getwdSucceeds w ->
  changeToBundlePath spec containerId w
  = (("", Some (SyscallError "getwd" ENOENT)), w).
Proof.
  intros H. unfold changeToBundlePath, bind. now rewrite (getwd_fails w H).
Qed.

Lemma os_Chdir_cwd (dir : string) (w w' : World) (e : error) :
  os_Chdir dir w = (Some e, w') ->
  w' = w /\ exists errno, e = PathError "chdir" dir errno.
Proof.
  unfold os_Chdir. intros H.
  destruct (dir =? ""); [injection H as <- <-; eauto|].
  destruct (statAt w (resolve w dir)) as [errno|[| perm es |]];
    try (injection H as <- <-; eauto).
  destruct (privileged w || canSearch perm); [discriminate|].
  injection H as <- <-; eauto.
Qed.

(** When the working directory cannot be read the caller gets exactly what
    [Getwd] returned, its string and its error, and that error is none of
    the [errors.New] values of this file. *)
Lemma changeToBundlePath_getwd_fails (spec : option specs.Spec)
    (containerId : string) (w : World) :
  ~ getwdSucceeds w ->
  fst (changeToBundlePath spec containerId w) = fst (os_Getwd w)
  /\ fst (fst (changeToBundlePath spec containerId w)) = ""
  /\ snd (fst (changeToBundlePath spec containerId w)) <> None
  /\ forall text,
       snd (fst (changeToBundlePath spec containerId w))
       <> Some (errors.New text).
Proof.
  intros Hko.
  rewrite (changeToBundlePath_getwd_error _ _ _ Hko), (getwd_fails w Hko).
  cbn [fst snd]. split; [reflexivity|]. split; [reflexivity|].
  split; [discriminate|]. intros text. discriminate.
Qed.

(** C6 (as amended): when the working directory can be read, a spec that is
    absent, has no [Root], or has an empty [Root.Path] is answered with
    [InvalidSpec] whatever has been persisted for the container id; when
    the working directory cannot be read the call returns what [Getwd]
    returned, its error instead of [InvalidSpec]; and with such a spec the
    call changes nothing, the working directory included, in either
    case. *)
Theorem invalid_spec_rejected (spec : option specs.Spec) (containerId : string)
    (w : World) :
  shapeInvalid spec ->
  snd (changeToBundlePath spec containerId w) = w
  /\ (getwdSucceeds w ->
      fst (changeToBundlePath spec containerId w) = (cwd w, Some InvalidSpec))
  /\ (~ getwdSucceeds w ->
      fst (changeToBundlePath spec containerId w) = fst (os_Getwd w)
      /\ snd (fst (changeToBundlePath spec containerId w)) <> None
      /\ snd (fst (changeToBundlePath spec containerId w)) <> Some InvalidSpec).
Proof.
  intros Hshape.
  destruct (getwdSucceeds_dec w) as [Hok|Hko].
  - assert (H : changeToBundlePath spec containerId w
                = ((cwd w, Some InvalidSpec), w)).
    { unfold changeToBundlePath, bind. rewrite (getwdSucceeds_cwd w Hok).
      destruct Hshape as [-> | [(s & -> & Hr) | (s & r & -> & Hr & Hp)]].
      - reflexivity.
      - now rewrite Hr.
      - now rewrite Hr, Hp. }
    rewrite H. split; [reflexivity|].
    split; [intros _; reflexivity | intros Hko; contradiction].
  - destruct (changeToBundlePath_getwd_fails spec containerId w Hko)
      as (Hres & _ & Hsome & Hnew).
    split; [now rewrite (changeToBundlePath_getwd_error _ _ _ Hko)|].
    split; [intros Hok; contradiction|].
    intros _. split; [exact Hres|]. split; [exact Hsome | apply Hnew].
Qed.

Lemma invalid_spec_rejected_witness :
  shapeInvalid None /\ getwdSucceeds bootWorld /\ ~ getwdSucceeds goneWorld
  /\ snd (changeToBundlePath None "c1" bootWorld) = bootWorld
  /\ fst (changeToBundlePath None "c1" bootWorld) = ("/", Some InvalidSpec)
  /\ fst (changeToBundlePath None "c1" goneWorld) = fst (os_Getwd goneWorld).
Proof.
  assert (Hs : shapeInvalid None) by (left; reflexivity).
  assert (Hg : getwdSucceeds bootWorld) by reflexivity.
  assert (Hn : ~ getwdSucceeds goneWorld) by discriminate.
  destruct (invalid_spec_rejected None "c1" bootWorld Hs) as (Hw & Hr & _).
  destruct (invalid_spec_rejected None "c1" goneWorld Hs) as (_ & _ & Hf).
  exact (conj Hs (conj Hg (conj Hn (conj Hw (conj (Hr Hg) (proj1 (Hf Hn))))))).
Defined.

(** C6 as stated fails where the working directory was removed: the call
    with an absent spec reports [Getwd]'s error, not [InvalidSpec]. *)
Lemma invalid_spec_counterexample :
  shapeInvalid None
  /\ fst (changeToBundlePath None "c1" goneWorld)
     = ("", Some (SyscallError "getwd" ENOENT))
  /\ snd (fst (changeToBundlePath None "c1" goneWorld)) <> Some InvalidSpec.
Proof.
  split; [left; reflexivity|]. split; [reflexivity|]. discriminate.
Qed.

(** C1 (as amended): when the working directory can be read, entering the
    bundle with a shape-valid spec while nothing exists at the canonical
    config path is answered with [InvalidBundle]; when the working
    directory cannot be read the call returns what [Getwd] returned, its
    error instead of [InvalidBundle]; and in that situation the call
    changes nothing, the working directory included, in either case. *)
Theorem enter_before_persist (spec : option specs.Spec) (containerId : string)
    (w : World) :
  shapeValid spec ->
  exists_ w (CanonicalConfigPath containerId) = false ->
  snd (changeToBundlePath spec containerId w) = w
  /\ (getwdSucceeds w ->
      fst (changeToBundlePath spec containerId w) = (cwd w, Some InvalidBundle))
  /\ (~ getwdSucceeds w ->
      fst (changeToBundlePath spec containerId w) = fst (os_Getwd w)
      /\ snd (fst (changeToBundlePath spec containerId w)) <> None
      /\ snd (fst (changeToBundlePath spec containerId w))
         <> Some InvalidBundle).
Proof.
  intros (s & r & -> & Hr & Hp) Hex.
  destruct (getwdSucceeds_dec w) as [Hok|Hko].
  - assert (H : changeToBundlePath (Some s) containerId w
                = ((cwd w, Some InvalidBundle), w)).
    { unfold changeToBundlePath, bind. rewrite (getwdSucceeds_cwd w Hok), Hr.
      apply String.eqb_neq in Hp. rewrite Hp.
      unfold exists_, CanonicalConfigPath in Hex.
      destruct (os_Stat _ w) as [[e|fi] w1] eqn:Hst; [|discriminate].
      assert (w1 = w) as -> by (unfold os_Stat, gets in Hst; congruence).
      reflexivity. }
    rewrite H. split; [reflexivity|].
    split; [intros _; reflexivity | intros Hko; contradiction].
  - destruct (changeToBundlePath_getwd_fails (Some s) containerId w Hko)
      as (Hres & _ & Hsome & Hnew).
    split; [now rewrite (changeToBundlePath_getwd_error _ _ _ Hko)|].
    split; [intros Hok; contradiction|].
    intros _. split; [exact Hres|]. split; [exact Hsome | apply Hnew].
Qed.

Lemma enter_before_persist_witness :
  shapeValid (Some specA)
  /\ exists_ bootWorld (CanonicalConfigPath "c1") = false
  /\ getwdSucceeds bootWorld
  /\ snd (changeToBundlePath (Some specA) "c1" bootWorld) = bootWorld
  /\ fst (changeToBundlePath (Some specA) "c1" bootWorld)
     = ("/", Some InvalidBundle)
  /\ (~ getwdSucceeds goneWorld
      /\ fst (changeToBundlePath (Some specA) "c1" goneWorld)
         = fst (os_Getwd goneWorld)).
Proof.
  assert (Hs : shapeValid (Some specA)).
  { exists specA, {| specs.Root_Path := "/containers/c1/rootfs";
                     specs.Root_Readonly := true |}.
    repeat split. discriminate. }
  assert (Hex : exists_ bootWorld (CanonicalConfigPath "c1") = false)
    by reflexivity.
  assert (Hg : getwdSucceeds bootWorld) by reflexivity.
  assert (Hex' : exists_ goneWorld (CanonicalConfigPath "c1") = false)
    by reflexivity.
  assert (Hn : ~ getwdSucceeds goneWorld) by discriminate.
  destruct (enter_before_persist (Some specA) "c1" bootWorld Hs Hex)
    as (Hw & Hr & _).
  destruct (enter_before_persist (Some specA) "c1" goneWorld Hs Hex')
    as (_ & _ & Hf).
  exact (conj Hs (conj Hex (conj Hg (conj Hw (conj (Hr Hg)
           (conj Hn (proj1 (Hf Hn)))))))).
Defined.

(** C1 as stated fails where the working directory was removed: nothing is
    persisted for the id and the spec is shape-valid, yet the call reports
    [Getwd]'s error, not [InvalidBundle]. *)
Lemma enter_before_persist_counterexample :
  shapeValid (Some specA)
  /\ exists_ goneWorld (CanonicalConfigPath "c1") = false
  /\ fst (changeToBundlePath (Some specA) "c1" goneWorld)
     = ("", Some (SyscallError "getwd" ENOENT))
  /\ snd (fst (changeToBundlePath (Some specA) "c1" goneWorld))
     <> Some InvalidBundle.
Proof.
  split.
  { exists specA, {| specs.Root_Path := "/containers/c1/rootfs";
                     specs.Root_Readonly := true |}.
    repeat split. discriminate. }
  split; [reflexivity|]. split; [reflexivity|]. discriminate.
Qed.

(** With the working directory read, the string returned is that
    directory and the outcome is one of the four. *)
Lemma changeToBundlePath_getwd_ok (spec : option specs.Spec)
    (containerId : string) (w : World) :
  getwdSucceeds w ->
  fst (fst (changeToBundlePath spec containerId w)) = cwd w
  /\ outcome (snd (fst (changeToBundlePath spec containerId w))).
Proof.
  intros Hok. unfold changeToBundlePath, bind, outcome.
  rewrite (getwdSucceeds_cwd w Hok).
  destruct spec as [s|]; [|cbn; auto].
  destruct (specs.Spec_Root s) as [r|]; [|cbn; auto].
  destruct (specs.Root_Path r =? ""); [cbn; auto|].
  destruct (os_Stat _ w) as [[e|fi] w1]; [cbn; auto|].
  destruct (os_Chdir _ w1) as [[e|] w2] eqn:Hcd; cbn [ret fst snd]; [|auto].
  apply os_Chdir_cwd in Hcd as [_ [errno ->]]. split; [reflexivity|].
  right; right; right. eauto.
Qed.

(** C7 (as amended): the call always returns the string and, when [Getwd]
    fails, the error that [Getwd] returned.  Whenever the working directory
    can be read, that string is the working directory in effect at the
    call, in each of the outcomes success, [InvalidSpec], [InvalidBundle]
    and chdir failure, and these are then the only outcomes.  When [Getwd]
    itself fails, the call returns the empty string and the error [Getwd]
    returned, which is none of those four outcomes. *)
Theorem returns_previous_cwd (spec : option specs.Spec) (containerId : string)
    (w : World) :
  fst (fst (changeToBundlePath spec containerId w)) = fst (fst (os_Getwd w))
  /\ (getwdSucceeds w ->
      fst (fst (changeToBundlePath spec containerId w)) = cwd w
      /\ outcome (snd (fst (changeToBundlePath spec containerId w))))
  /\ (~ getwdSucceeds w ->
      fst (changeToBundlePath spec containerId w) = fst (os_Getwd w)
      /\ fst (fst (changeToBundlePath spec containerId w)) = ""
      /\ ~ outcome (snd (fst (changeToBundlePath spec containerId w)))).
Proof.
  destruct (getwdSucceeds_dec w) as [Hok|Hko].
  - destruct (changeToBundlePath_getwd_ok spec containerId w Hok) as [Hd Ho].
    split; [now rewrite Hd, (getwdSucceeds_cwd w Hok)|].
    split; [auto | intros Hko; contradiction].
  - destruct (changeToBundlePath_getwd_fails spec containerId w Hko)
      as (Hres & Hempty & Hsome & Hnew).
    split; [now rewrite Hres|].
    split; [intros Hok; contradiction|].
    intros _. split; [exact Hres|]. split; [exact Hempty|].
    intros [Ho | [Ho | [Ho | (dir & errno & Ho)]]].
    + contradiction.
    + exact (Hnew _ Ho).
    + exact (Hnew _ Ho).
    + rewrite (changeToBundlePath_getwd_error _ _ _ Hko) in Ho. discriminate.
Qed.

Lemma returns_previous_cwd_witness :
  getwdSucceeds bootWorld
  /\ fst (fst (changeToBundlePath (Some specA) "c1" bootWorld)) = "/"
  /\ outcome (snd (fst (changeToBundlePath (Some specA) "c1" bootWorld)))
  /\ ~ getwdSucceeds goneWorld
  /\ fst (changeToBundlePath (Some specA) "c1" goneWorld)
     = fst (os_Getwd goneWorld).
Proof.
  assert (Hg : getwdSucceeds bootWorld) by reflexivity.
  assert (Hn : ~ getwdSucceeds goneWorld) by discriminate.
  destruct (returns_previous_cwd (Some specA) "c1" bootWorld) as (_ & Hok & _).
  destruct (returns_previous_cwd (Some specA) "c1" goneWorld) as (_ & _ & Hko).
  exact (conj Hg (conj (proj1 (Hok Hg)) (conj (proj2 (Hok Hg))
           (conj Hn (proj1 (Hko Hn)))))).
Defined.

(** C7 as stated fails where the working directory was removed: the string
    returned is [Getwd]'s empty string, not the working directory. *)
Lemma returns_previous_cwd_counterexample :
  cwd goneWorld = "/gone"
  /\ fst (changeToBundlePath (Some specA) "c1" goneWorld)
     = ("", Some (SyscallError "getwd" ENOENT))
  /\ fst (fst (changeToBundlePath (Some specA) "c1" goneWorld)) <> cwd goneWorld.
Proof.
  split; [reflexivity|]. split; [reflexivity|]. discriminate.
Qed.

(** ** [isValidHook] *)

Lemma land_bit_zero (m n : Z) :
  (0 <= n)%Z -> (Z.land m (Z.shiftl 1 n) =? 0)%Z = negb (Z.testbit m n).
Proof.
  intros Hn. rewrite Z.shiftl_1_l.
  destruct (Z.testbit m n) eqn:Hb; cbn [negb].
  - apply Z.eqb_neq. intros H0.
    assert (Ht : Z.testbit (Z.land m (2 ^ n)) n = true)
      by (rewrite Z.land_spec, Hb, Z.pow2_bits_true; auto).
    rewrite H0, Z.bits_0 in Ht. discriminate.
  - apply Z.eqb_eq. apply Z.bits_inj'. intros i Hi.
    rewrite Z.land_spec, Z.bits_0.
    destruct (Z.eq_dec n i) as [<-|Hne].
    + now rewrite Hb.
    + rewrite Z.pow2_bits_false by auto. apply andb_false_r.
Qed.

Lemma exec_mask_bits (m : Z) :
  (Z.land (Z.land m os.ModePerm) 73 =? 0)%Z
  = negb (Z.testbit m 6 || Z.testbit m 3 || Z.testbit m 0).
Proof.
  rewrite <- Z.land_assoc.
  change (Z.land os.ModePerm 73)
    with (Z.lor (Z.lor (Z.shiftl 1 6) (Z.shiftl 1 3)) (Z.shiftl 1 0)).
  rewrite !Z.land_lor_distr_r.
  pose proof (land_bit_zero m 6 ltac:(lia)) as H6.
  pose proof (land_bit_zero m 3 ltac:(lia)) as H3.
  pose proof (land_bit_zero m 0 ltac:(lia)) as H0.
  destruct (Z.eqb_spec
              (Z.lor (Z.lor (Z.land m (Z.shiftl 1 6)) (Z.land m (Z.shiftl 1 3)))
                 (Z.land m (Z.shiftl 1 0))) 0) as [E|E].
  - apply Z.lor_eq_0_iff in E as [E E0]. apply Z.lor_eq_0_iff in E as [E6 E3].
    rewrite E6 in H6. rewrite E3 in H3. rewrite E0 in H0.
    rewrite Z.eqb_refl in H6, H3, H0. symmetry in H6, H3, H0.
    apply negb_true_iff in H6, H3, H0. now rewrite H6, H3, H0.
  - destruct (Z.testbit m 6); [reflexivity|].
    destruct (Z.testbit m 3); [reflexivity|].
    destruct (Z.testbit m 0); [reflexivity|].
    cbn [negb] in *. apply Z.eqb_eq in H6, H3, H0.
    exfalso. apply E. now rewrite H6, H3, H0.
Qed.

Lemma IsDir_bit (file : os.FileInfo) : os.IsDir file = entryIsDirectory file.
Proof.
  unfold os.IsDir, entryIsDirectory, os.ModeDir.
  rewrite land_bit_zero by lia. apply negb_involutive.
Qed.

Lemma symlink_bit (file : os.FileInfo) :
  negb (Z.land (os.Mode file) os.ModeSymlink =? 0)%Z = entryIsSymlink file.
Proof.
  unfold entryIsSymlink, os.ModeSymlink.
  rewrite land_bit_zero by lia. apply negb_involutive.
Qed.

(** The three mask tests of [isValidHook], read as bits of the mode word. *)
Lemma isValidHook_bits (file : os.FileInfo) :
  isValidHook file =
    if entryIsDirectory file then (false, Some (errors.New "is a directory"))
    else if entryIsSymlink file
    then (false, Some (errors.New "is a symbolic link"))
    else if anyExec file then (true, None)
    else (false, Some (errors.New "is not executable")).
Proof.
  unfold isValidHook. rewrite IsDir_bit, symlink_bit, exec_mask_bits.
  unfold anyExec, ownerExec, groupExec, otherExec.
  destruct (entryIsDirectory file); [reflexivity|].
  destruct (entryIsSymlink file); [reflexivity|].
  destruct (Z.testbit (os.Mode file) 6), (Z.testbit (os.Mode file) 3),
    (Z.testbit (os.Mode file) 0); reflexivity.
Qed.

(** C4: the validator rejects a directory with [NotAFile], otherwise a
    symbolic link with [IsSymlink], otherwise an entry with no execute bit
    in any of the owner, group and other classes with [NotExecutable], and
    accepts every other entry. *)
Theorem isValidHook_verdict (file : os.FileInfo) :
  isValidHook file =
    if entryIsDirectory file then (false, Some NotAFile)
    else if entryIsSymlink file then (false, Some IsSymlink)
    else if negb (ownerExec file) && negb (groupExec file) && negb (otherExec file)
    then (false, Some NotExecutable)
    else (true, None).
Proof.
  rewrite isValidHook_bits. unfold anyExec.
  destruct (entryIsDirectory file); [reflexivity|].
  destruct (entryIsSymlink file); [reflexivity|].
  destruct (ownerExec file), (groupExec file), (otherExec file); reflexivity.
Qed.

(** C10: the rejection reasons have a fixed precedence: the directory check
    comes first, then the symbolic-link check, then the execute check.  So
    a directory is [NotAFile] whatever its other bits (a non-executable
    directory included), a symbolic link that is not a directory is
    [IsSymlink] whatever its execute bits (a non-executable one included),
    and [NotExecutable] is only ever the answer for an entry that is
    neither. *)
Theorem isValidHook_precedence :
  (forall file, entryIsDirectory file = true ->
                isValidHook file = (false, Some NotAFile))
  /\ (forall file, entryIsDirectory file = false -> entryIsSymlink file = true ->
                   isValidHook file = (false, Some IsSymlink))
  /\ (forall file, snd (isValidHook file) = Some NotExecutable ->
                   entryIsDirectory file = false /\ entryIsSymlink file = false
                   /\ anyExec file = false)
  /\ isValidHook {| os.Name := "c"; os.Mode := Z.lor os.ModeSymlink 420 |}
     = (false, Some IsSymlink)
  /\ isValidHook {| os.Name := "b"; os.Mode := Z.lor os.ModeDir 420 |}
     = (false, Some NotAFile).
Proof.
  split; [|split; [|split; [|split; reflexivity]]].
  - intros file Hd. now rewrite isValidHook_bits, Hd.
  - intros file Hd Hs. now rewrite isValidHook_bits, Hd, Hs.
  - intros file H. rewrite isValidHook_bits in H.
    destruct (entryIsDirectory file); [discriminate|].
    destruct (entryIsSymlink file); [discriminate|].
    destruct (anyExec file); [discriminate | auto].
Qed.

(** ** [sortByName] *)

Lemma ltb_trans (a b c : string) :
  String.ltb a b = true -> String.ltb b c = true -> String.ltb a c = true.
Proof.
  unfold String.ltb. intros Hab Hbc.
  destruct (String.compare a b) eqn:Eab; try discriminate.
  destruct (String.compare b c) eqn:Ebc; try discriminate.
  apply String_as_OT.cmp_lt in Eab, Ebc.
  pose proof (String_as_OT.lt_trans _ _ _ Eab Ebc) as Hac.
  apply String_as_OT.cmp_lt in Hac. unfold String_as_OT.cmp in Hac.
  now rewrite Hac.
Qed.

Lemma ltb_asym (a b : string) : String.ltb a b = true -> String.ltb b a = false.
Proof.
  unfold String.ltb. rewrite (String.compare_antisym a b).
  destruct (String.compare b a); cbn; congruence.
Qed.

Lemma ltb_total (a b : string) :
  a <> b -> String.ltb a b = true \/ String.ltb b a = true.
Proof.
  intros Hne. unfold String.ltb. rewrite (String.compare_antisym a b).
  destruct (String.compare b a) eqn:E; cbn; auto.
  apply String.compare_eq_iff in E. congruence.
Qed.

(** Not below, then above or equal: [y <= z < x] gives [y < x]. *)
Lemma leb_ltb_trans (x y z : string) :
  String.ltb z y = false -> String.ltb z x = true -> String.ltb y x = true.
Proof.
  intros Hzy Hzx. destruct (String.eqb_spec y z) as [->|Hne]; [exact Hzx|].
  destruct (ltb_total y z Hne) as [H|H]; [|congruence].
  eapply ltb_trans; eassumption.
Qed.

Lemma insertByName_perm (x : os.FileInfo) (l : list os.FileInfo) :
  Permutation (insertByName x l) (x :: l).
Proof.
  induction l as [|y l IH]; cbn [insertByName]; [reflexivity|].
  destruct (String.ltb (os.Name y) (os.Name x)); [|reflexivity].
  rewrite IH. apply perm_swap.
Qed.

Lemma sortByName_perm (l : list os.FileInfo) : Permutation (sortByName l) l.
Proof.
  induction l as [|x l IH]; cbn [sortByName]; [reflexivity|].
  rewrite insertByName_perm. now constructor.
Qed.

Lemma ltb_false_leb (a b : string) :
  String.ltb a b = false -> String.leb b a = true.
Proof.
  unfold String.ltb, String.leb. rewrite (String.compare_antisym b a).
  destruct (String.compare a b); cbn; congruence.
Qed.

Lemma ltb_leb (a b : string) : String.ltb a b = true -> String.leb a b = true.
Proof.
  unfold String.ltb, String.leb. destruct (String.compare a b); congruence.
Qed.

Lemma insertByName_sorted (x : os.FileInfo) (l : list os.FileInfo) :
  Sorted nameLe l -> Sorted nameLe (insertByName x l).
Proof.
  induction l as [|y l IH]; intros Hs; cbn [insertByName].
  - repeat constructor.
  - destruct (String.ltb (os.Name y) (os.Name x)) eqn:Hyx.
    + inversion Hs as [|? ? Hl Hhd]; subst. constructor; [now apply IH|].
      destruct l as [|z l]; cbn [insertByName].
      * constructor. now apply ltb_leb.
      * destruct (String.ltb (os.Name z) (os.Name x)).
        -- constructor. now inversion Hhd.
        -- constructor. now apply ltb_leb.
    + constructor; [assumption|]. constructor. now apply ltb_false_leb.
Qed.

Lemma sortByName_sorted (l : list os.FileInfo) : Sorted nameLe (sortByName l).
Proof.
  induction l as [|x l IH]; cbn [sortByName]; [constructor|].
  now apply insertByName_sorted.
Qed.

(** Inserting two entries of different names commutes. *)
Lemma insertByName_comm (x y : os.FileInfo) (l : list os.FileInfo) :
  os.Name x <> os.Name y ->
  insertByName x (insertByName y l) = insertByName y (insertByName x l).
Proof.
  intros Hne. induction l as [|z l IH].
  - cbn [insertByName].
    destruct (ltb_total _ _ Hne) as [H|H]; rewrite H, (ltb_asym _ _ H);
      reflexivity.
  - cbn [insertByName].
    destruct (String.ltb (os.Name z) (os.Name y)) eqn:Hzy,
             (String.ltb (os.Name z) (os.Name x)) eqn:Hzx; cbn [insertByName].
    + now rewrite Hzy, Hzx, IH.
    + rewrite Hzx, Hzy, (leb_ltb_trans _ _ _ Hzx Hzy). reflexivity.
    + rewrite Hzy, Hzx, (leb_ltb_trans _ _ _ Hzy Hzx). reflexivity.
    + rewrite Hzx, Hzy.
      destruct (ltb_total _ _ Hne) as [H|H]; rewrite H, (ltb_asym _ _ H);
        cbn [insertByName]; now rewrite ?Hzx, ?Hzy.
Qed.

(** With distinct names the sorted listing does not depend on the order the
    entries came in. *)
Lemma sortByName_order_free (l1 l2 : list os.FileInfo) :
  Permutation l1 l2 -> NoDup (map os.Name l1) ->
  sortByName l1 = sortByName l2.
Proof.
  induction 1 as [| x l1 l2 Hp IH | x y l | l1 l2 l3 H12 IH12 H23 IH23];
    intros Hnd.
  - reflexivity.
  - cbn [sortByName]. cbn [map] in Hnd. inversion Hnd; subst.
    now rewrite IH.
  - cbn [sortByName]. cbn [map] in Hnd. inversion Hnd as [|? ? Hin _]; subst.
    apply insertByName_comm. intros Heq. apply Hin. left. congruence.
  - rewrite IH12 by assumption. apply IH23.
    eapply Permutation_NoDup; [|exact Hnd]. now apply Permutation_map.
Qed.

(** ** [findHooks] *)

Lemma addEntries_nil (w : World) : addEntries w [] = w.
Proof. destruct w. unfold addEntries. cbn. now rewrite app_nil_r. Qed.

Lemma addEntry_addEntries (w : World) (e : Entry) (l : list Entry) :
  addEntries (addEntry w e) l = addEntries w (e :: l).
Proof. unfold addEntries, addEntry. cbn. now rewrite <- app_assoc. Qed.

(** The loop visits the listing front to back: one event per entry, one
    descriptor per accepted entry, appended in that order. *)
Lemma findHooks_range_spec (hooksPath hookType : string)
    (files : list os.FileInfo) (hooksFound : list specs.Hook) (w : World) :
  findHooks_range hooksPath hookType files hooksFound w
  = (hooksFound ++ map (hookFor hooksPath hookType) (filter accepted files),
     addEntries w (map (eventFor hookType) files)).
Proof.
  revert hooksFound w.
  induction files as [|file files IH]; intros hooksFound w.
  - cbn. now rewrite app_nil_r, addEntries_nil.
  - cbn [findHooks_range filter map].
    assert (Ha : accepted file = fst (isValidHook file)) by reflexivity.
    assert (He : eventFor hookType file
                 = if fst (isValidHook file)
                   then {| entry_Level := InfoLevel; entry_Message := "Adding hook";
                           entry_Data := [("oci-hook-name", FString (os.Name file));
                                          ("oci-hook-type", FString hookType)] |}
                   else {| entry_Level := WarnLevel; entry_Message := "Skipping hook";
                           entry_Data := [("error", FError (snd (isValidHook file)));
                                          ("oci-hook-name", FString (os.Name file))] |})
      by reflexivity.
    rewrite Ha, He.
    destruct (isValidHook file) as [ok err].
    destruct ok; cbn [negb fst snd]; unfold bind, agentLog; rewrite IH.
    + cbn [map app]. rewrite <- app_assoc. cbn [app].
      now rewrite addEntry_addEntries.
    + now rewrite addEntry_addEntries.
Qed.

Lemma findHooks_unfold (guestHookPath hookType : string) (w : World) :
  findHooks guestHookPath hookType w =
  match File_Readdir (path.Join [guestHookPath; hookType]) w with
  | inl err => ([], addEntry w (skippedType hookType err))
  | inr raw =>
      let hooks := map (hookFor (path.Join [guestHookPath; hookType]) hookType)
                       (filter accepted (sortByName raw)) in
      (hooks,
       addEntry (addEntries w (map (eventFor hookType) (sortByName raw)))
                (addedCount hookType (List.length hooks)))
  end.
Proof.
  unfold findHooks, bind, ioutil_ReadDir, gets.
  destruct (File_Readdir _ w) as [err|raw]; [reflexivity|].
  rewrite findHooks_range_spec. reflexivity.
Qed.

(** C8: when the hook-type subdirectory cannot be listed, [findHooks]
    returns no hook and adds exactly one event, the listing failure, to the
    sink; its result type has no error to hand to the caller. *)
Theorem findHooks_unlistable (guestHookPath hookType : string) (w : World)
    (err : error) :
  File_Readdir (path.Join [guestHookPath; hookType]) w = inl err ->
  findHooks guestHookPath hookType w
  = ([], addEntry w (skippedType hookType err)).
Proof. intros H. now rewrite findHooks_unfold, H. Qed.

Lemma findHooks_unlistable_witness :
  File_Readdir (path.Join [guestHookPath; "createRuntime"]) hookWorld
  = inl (PathError "open" "/usr/share/oci/hooks/createRuntime" ENOENT)
  /\ fst (findHooks guestHookPath "createRuntime" hookWorld) = []
  /\ sink (snd (findHooks guestHookPath "createRuntime" hookWorld))
     = [skippedType "createRuntime"
          (PathError "open" "/usr/share/oci/hooks/createRuntime" ENOENT)].
Proof.
  assert (H : File_Readdir (path.Join [guestHookPath; "createRuntime"]) hookWorld
              = inl (PathError "open" "/usr/share/oci/hooks/createRuntime" ENOENT))
    by reflexivity.
  pose proof (findHooks_unlistable guestHookPath "createRuntime" hookWorld _ H)
    as Hf.
  split; [exact H|]. rewrite Hf. split; reflexivity.
Defined.

(** The listing fails exactly when the path is not a directory the process
    may list: absent, not a directory, or permission denied. *)
Lemma File_Readdir_fails (dirname : string) (w : World) :
  (exists err, File_Readdir dirname w = inl err) <-> ~ listable w dirname.
Proof.
  unfold File_Readdir, listable.
  destruct (String.eqb_spec dirname "") as [->|Hne].
  - split; [intros _ [H _]; congruence | eauto].
  - destruct (statAt w (resolve w dirname)) as [e|[fperm data|perm es|t]] eqn:Hst.
    + split; [intros _ (_ & p & es & H & _); discriminate | eauto].
    + split; [intros _ (_ & p & es & H & _); discriminate | eauto].
    + destruct (privileged w || canRead perm) eqn:Hr.
      * destruct es as [|e0 es].
        { split; [intros [e H]; discriminate|].
          intros H. exfalso. apply H. split; [assumption|].
          exists perm, []. auto. }
        destruct (privileged w || canSearch perm) eqn:Hs.
        { split; [intros [e H]; discriminate|].
          intros H. exfalso. apply H. split; [assumption|].
          exists perm, (e0 :: es). auto. }
        split; [|eauto]. intros _ (_ & p & es' & H & _ & [He|Hs']);
          injection H as <- <-; congruence.
      * split; [|eauto]. intros _ (_ & p & es' & H & Hr' & _).
        injection H as <- <-. congruence.
    + split; [intros _ (_ & p & es & H & _); discriminate | eauto].
Qed.

(** The three ways a listing fails, on a concrete guest. *)
Example File_Readdir_failures :
  File_Readdir "/usr/share/oci/hooks/createRuntime" hookWorld
  = inl (PathError "open" "/usr/share/oci/hooks/createRuntime" ENOENT)
  /\ File_Readdir "/usr/share/oci/hooks/poststop" hookWorld
     = inl (PathError "readdirent" "/usr/share/oci/hooks/poststop" ENOTDIR)
  /\ File_Readdir "/usr/share/oci/hooks/private" hookUserWorld
     = inl (PathError "open" "/usr/share/oci/hooks/private" EACCES).
Proof. repeat split. Qed.

(** C3 (as amended): [findHooks] emits its descriptors, and its per-entry
    events, in exactly the order of the listing [ioutil.ReadDir] returns,
    with no sorting of its own; that listing is the entries the directory
    read reports, sorted by file name. *)
Theorem findHooks_listing_order (guestHookPath hookType : string) (w : World)
    (raw : list os.FileInfo) :
  File_Readdir (path.Join [guestHookPath; hookType]) w = inr raw ->
  let hooksPath := path.Join [guestHookPath; hookType] in
  let files := sortByName raw in
  let hooks := map (hookFor hooksPath hookType) (filter accepted files) in
  fst (ioutil_ReadDir hooksPath w) = inr files
  /\ Permutation files raw /\ Sorted nameLe files
  /\ fst (findHooks guestHookPath hookType w) = hooks
  /\ sink (snd (findHooks guestHookPath hookType w))
     = sink w ++ map (eventFor hookType) files
              ++ [addedCount hookType (List.length hooks)].
Proof.
  intros H. cbn zeta. rewrite findHooks_unfold.
  unfold ioutil_ReadDir, gets. rewrite H. cbn [fst snd].
  repeat split.
  - apply sortByName_perm.
  - apply sortByName_sorted.
  - cbn [sink addEntry addEntries]. now rewrite <- app_assoc.
Qed.

Lemma findHooks_listing_order_witness :
  File_Readdir (path.Join [guestHookPath; "poststart"]) hookWorld
  = inr [{| os.Name := "b"; os.Mode := 493%Z |}; {| os.Name := "a"; os.Mode := 493%Z |}]
  /\ fst (findHooks guestHookPath "poststart" hookWorld)
     = map (hookFor "/usr/share/oci/hooks/poststart" "poststart")
         [{| os.Name := "a"; os.Mode := 493%Z |}; {| os.Name := "b"; os.Mode := 493%Z |}].
Proof.
  assert (H : File_Readdir (path.Join [guestHookPath; "poststart"]) hookWorld
              = inr [{| os.Name := "b"; os.Mode := 493%Z |};
                     {| os.Name := "a"; os.Mode := 493%Z |}]) by reflexivity.
  split; [exact H|].
  destruct (findHooks_listing_order guestHookPath "poststart" hookWorld _ H)
    as (_ & _ & _ & Hh & _).
  rewrite Hh. reflexivity.
Defined.

(** C3 as stated fails: the directory read reports [b] before [a], both
    valid hooks, and [findHooks] emits [a] before [b]. *)
Lemma findHooks_os_order_counterexample :
  File_Readdir (path.Join [guestHookPath; "poststart"]) hookWorld
  = inr [{| os.Name := "b"; os.Mode := 493%Z |}; {| os.Name := "a"; os.Mode := 493%Z |}]
  /\ map specs.Hook_Path (fst (findHooks guestHookPath "poststart" hookWorld))
     = ["/usr/share/oci/hooks/poststart/a"; "/usr/share/oci/hooks/poststart/b"]
  /\ fst (findHooks guestHookPath "poststart" hookWorld)
     <> map (hookFor (path.Join [guestHookPath; "poststart"]) "poststart")
          (filter accepted
             [{| os.Name := "b"; os.Mode := 493%Z |};
              {| os.Name := "a"; os.Mode := 493%Z |}]).
Proof.
  split; [reflexivity|]. split; [reflexivity|]. discriminate.
Qed.

(** What [lstat] reports for the three kinds of node. *)
Lemma file_info_bits (name : string) (perm : Z) (data : list byte) :
  let fi := infoOf (name, File perm data) in
  entryIsDirectory fi = false /\ entryIsSymlink fi = false
  /\ ownerExec fi = Z.testbit perm 6
  /\ groupExec fi = Z.testbit perm 3
  /\ otherExec fi = Z.testbit perm 0.
Proof.
  unfold entryIsDirectory, entryIsSymlink, ownerExec, groupExec, otherExec.
  cbn [infoOf snd os.Mode modeOf]. rewrite !Z.land_spec.
  repeat split; try apply andb_false_r; apply andb_true_r.
Qed.

Lemma dir_info_bits (name : string) (perm : Z) (es : list (string * node)) :
  entryIsDirectory (infoOf (name, Directory perm es)) = true.
Proof.
  unfold entryIsDirectory. cbn [infoOf snd os.Mode modeOf].
  now rewrite Z.lor_spec.
Qed.

Lemma symlink_info_bits (name target : string) :
  entryIsDirectory (infoOf (name, Symlink target)) = false
  /\ entryIsSymlink (infoOf (name, Symlink target)) = true.
Proof. split; reflexivity. Qed.

Lemma accepted_file (name : string) (perm : Z) (data : list byte) :
  accepted (infoOf (name, File perm data)) = executable perm.
Proof.
  unfold accepted. rewrite isValidHook_bits. unfold anyExec.
  destruct (file_info_bits name perm data) as (-> & -> & -> & -> & ->).
  unfold executable.
  destruct (Z.testbit perm 6), (Z.testbit perm 3), (Z.testbit perm 0);
    reflexivity.
Qed.

Lemma accepted_dir (name : string) (perm : Z) (es : list (string * node)) :
  accepted (infoOf (name, Directory perm es)) = false.
Proof.
  unfold accepted. now rewrite isValidHook_bits, dir_info_bits.
Qed.

Lemma accepted_symlink (name target : string) :
  accepted (infoOf (name, Symlink target)) = false.
Proof. reflexivity. Qed.

Lemma Join_hookType_nonempty (guestHookPath hookType : string) :
  hookType <> "" -> path.Join [guestHookPath; hookType] <> "".
Proof.
  intros Hne. cbn [path.Join].
  destruct (guestHookPath =? ""); [|apply Clean_nonempty].
  apply String.eqb_neq in Hne. rewrite Hne. apply Clean_nonempty.
Qed.

(** C5: when [prestart/] holds exactly a regular executable file [a], a
    directory [b], a symbolic link [c] and a regular file [d] without any
    execute bit, in whatever order the directory read reports them,
    [findHooks root "prestart"] returns exactly one descriptor, with path
    [root/prestart/a] and args [a; prestart]. *)
Theorem findHooks_prestart_example (root : string) (w : World)
    (perm pa pb pd : Z) (da dd : list byte) (eb : list (string * node))
    (tc : string) (es : list (string * node)) :
  statAt w (resolve w (path.Join [root; "prestart"])) = inr (Directory perm es) ->
  privileged w || canRead perm = true ->
  privileged w || canSearch perm = true ->
  Permutation es [("a", File pa da); ("b", Directory pb eb);
                  ("c", Symlink tc); ("d", File pd dd)] ->
  executable pa = true ->
  executable pd = false ->
  fst (findHooks root "prestart" w)
  = [{| specs.Hook_Path := path.Join [root; "prestart"; "a"];
        specs.Hook_Args := ["a"; "prestart"];
        specs.Hook_Env := [];
        specs.Hook_Timeout := None |}].
Proof.
  intros Hst Hr Hs Hperm Ha Hd.
  assert (Hraw : File_Readdir (path.Join [root; "prestart"]) w
                 = inr (map infoOf es)).
  { unfold File_Readdir.
    pose proof (Join_hookType_nonempty root "prestart" ltac:(discriminate)) as Hne.
    apply String.eqb_neq in Hne. rewrite Hne, Hst, Hr, Hs.
    now destruct es. }
  rewrite findHooks_unfold, Hraw. cbn [fst].
  rewrite <- (sortByName_order_free
                (map infoOf [("a", File pa da); ("b", Directory pb eb);
                             ("c", Symlink tc); ("d", File pd dd)])).
  - change (sortByName (map infoOf [("a", File pa da); ("b", Directory pb eb);
                                    ("c", Symlink tc); ("d", File pd dd)]))
      with [infoOf ("a", File pa da); infoOf ("b", Directory pb eb);
            infoOf ("c", Symlink tc); infoOf ("d", File pd dd)].
    cbn [filter].
    rewrite !accepted_file, accepted_dir, accepted_symlink, Ha, Hd.
    cbn [map]. unfold hookFor. cbn [infoOf fst os.Name].
    now rewrite Join_nested.
  - apply Permutation_map. now apply Permutation_sym.
  - cbn. repeat constructor; cbn; intuition discriminate.
Qed.

Lemma findHooks_prestart_example_witness :
  statAt hookWorld (resolve hookWorld (path.Join [guestHookPath; "prestart"]))
  = inr (Directory 493 [("d", File 420 []); ("c", Symlink "/bin/true");
                        ("b", Directory 493 []); ("a", File 493 [])])
  /\ fst (findHooks guestHookPath "prestart" hookWorld)
     = [{| specs.Hook_Path := "/usr/share/oci/hooks/prestart/a";
           specs.Hook_Args := ["a"; "prestart"];
           specs.Hook_Env := [];
           specs.Hook_Timeout := None |}].
Proof.
  split; [reflexivity|].
  apply (findHooks_prestart_example guestHookPath hookWorld
           493 493 493 420 [] [] [] "/bin/true"
           [("d", File 420 []); ("c", Symlink "/bin/true");
            ("b", Directory 493 []); ("a", File 493 [])]).
  - reflexivity.
  - reflexivity.
  - reflexivity.
  - apply Permutation_sym.
    apply (Permutation_rev [("a", File 493 []); ("b", Directory 493 []);
                            ("c", Symlink "/bin/true"); ("d", File 420 [])]).
  - reflexivity.
  - reflexivity.
Defined.

(** ** Persisting twice *)

Lemma mkdirAllFrom_existing (rp : list string) (perm dperm : Z) (w : World)
    (es : list (string * node)) :
  statAt w (rev rp) = inr (Directory dperm es) ->
  mkdirAllFrom rp perm w = (None, w).
Proof. intros H. destruct rp; cbn [mkdirAllFrom]; now rewrite H. Qed.

Lemma fold_config_file (out : list string) :
  fold_left (path.cleanStep true) (path.split ociConfigFile) out
  = ociConfigFile :: out.
Proof. reflexivity. Qed.

(** The canonical config path resolves to the container's directory followed
    by the file name. *)
Lemma resolve_config_path (w : World) (containerId : string) :
  resolve w (CanonicalConfigPath containerId)
  = resolve w (filepath.Join [ociConfigBasePath; containerId]) ++ [ociConfigFile].
Proof.
  rewrite <- CanonicalConfigPath_nested.
  set (D := filepath.Join [ociConfigBasePath; containerId]).
  assert (HD : path.isRooted D = true) by apply Join_base_rooted.
  assert (HDne : D <> "") by (intros E; rewrite E in HD; discriminate).
  assert (HJ : filepath.Join [D; ociConfigFile]
               = path.Clean (D ++ "/" ++ ociConfigFile)).
  { unfold filepath.Join. cbn [path.Join concat].
    apply String.eqb_neq in HDne. now rewrite HDne. }
  assert (HY : path.isRooted (D ++ "/" ++ ociConfigFile) = true)
    by now rewrite isRooted_app.
  assert (HJr : path.isRooted (filepath.Join [D; ociConfigFile]) = true).
  { rewrite HJ. rewrite <- (isRooted_Clean _ "") in HY
      by now apply append_nonempty.
    destruct (path.Clean (D ++ "/" ++ ociConfigFile)); [discriminate | exact HY]. }
  rewrite !resolve_rooted by assumption.
  unfold path.cleanElems. rewrite HJ.
  pose proof (fold_split_Clean (D ++ "/" ++ ociConfigFile)
                (append_nonempty _ _ HDne)) as Hf.
  rewrite HY in Hf. rewrite Hf, split_app_slash, fold_left_app, fold_config_file.
  reflexivity.
Qed.

Lemma statAt_file_parent (w : World) (p : list string) (c : string)
    (fperm : Z) (old : list byte) :
  statAt w (p ++ [c]) = inr (File fperm old) ->
  exists dperm es,
    statAt w p = inr (Directory dperm es)
    /\ privileged w || canSearch dperm = true
    /\ lookupEntry c es = Some (File fperm old).
Proof.
  unfold statAt. rewrite walk_app.
  destruct (walk (privileged w) (tree w) p) as [e|[| dperm es |]];
    cbn [walk]; try discriminate.
  destruct (privileged w || canSearch dperm) eqn:Hs; [|discriminate].
  destruct (lookupEntry c es) as [[]|] eqn:Hl; try discriminate.
  intros H. injection H as -> ->. eauto.
Qed.

Section PersistTwice.

Variable json_Marshal : option specs.Spec -> error + list byte.

(** Persisting over an existing config file: the new encoding replaces the
    front of the old content, and what the old content held beyond the new
    length stays in the file. *)
Lemma writeSpecToFile_over_existing (spec : option specs.Spec)
    (containerId : string) (w w' : World) (fperm : Z) (old : list byte) :
  statAt w (resolve w (CanonicalConfigPath containerId)) = inr (File fperm old) ->
  writeSpecToFile json_Marshal spec containerId w = (None, w') ->
  exists b,
    json_Marshal spec = inr b
    /\ fileContent w' (CanonicalConfigPath containerId)
       = Some ((b ++ [x0a]) ++ skipn (List.length (b ++ [x0a])) old).
Proof.
  intros Hold H.
  pose proof Hold as Hfile. rewrite resolve_config_path in Hold.
  apply statAt_file_parent in Hold as (dperm & es & Hdir & Hs & Hl).
  unfold writeSpecToFile, bind in H.
  assert (Hmk : os_MkdirAll (filepath.Join [ociConfigBasePath; containerId])
                  448%Z w = (None, w)).
  { assert (Hne : (filepath.Join [ociConfigBasePath; containerId] =? "") = false).
    { pose proof (Join_base_rooted [containerId]) as Hr. unfold filepath.Join.
      destruct (path.Join [ociConfigBasePath; containerId]);
        [discriminate | reflexivity]. }
    unfold os_MkdirAll. rewrite Hne.
    eapply mkdirAllFrom_existing. rewrite rev_involutive. exact Hdir. }
  rewrite Hmk, CanonicalConfigPath_nested in H.
  assert (Hopen : forall r w2,
            os_OpenFile (CanonicalConfigPath containerId)
              (Z.lor os.O_WRONLY os.O_CREATE) ociConfigFileMode w = (inr r, w2)
            -> w2 = w).
  { intros r w2. unfold os_OpenFile.
    rewrite CanonicalConfigPath_nonempty, resolve_config_path, rev_app_distr.
    cbn [rev app]. rewrite rev_involutive, Hdir, Hs, Hl. cbn [negb].
    change (hasFlag (Z.lor os.O_WRONLY os.O_CREATE) os.O_CREATE
            && hasFlag (Z.lor os.O_WRONLY os.O_CREATE) os.O_EXCL) with false.
    change (forWriting (Z.lor os.O_WRONLY os.O_CREATE)) with true.
    change (hasFlag (Z.lor os.O_WRONLY os.O_CREATE) os.O_TRUNC) with false.
    cbn [andb negb].
    destruct (privileged w || canWrite fperm); cbn [negb]; congruence. }
  destruct (os_OpenFile _ _ _ w) as [[e|f] w2] eqn:Ho; [discriminate|].
  pose proof (Hopen _ _ eq_refl) as ->. clear Hopen.
  apply os_OpenFile_file in Ho as (-> & _ & _ & _ & _); [|reflexivity].
  unfold json_Encode in H. destruct (json_Marshal spec) as [e|b]; [discriminate|].
  unfold bind in H.
  destruct (File_Write _ _ w) as [[k err] w3] eqn:Hwr.
  cbn in H. injection H as -> ->.
  assert (Hwalk : walk (privileged w) (tree w)
                    (resolve w (CanonicalConfigPath containerId))
                  = inr (File fperm old)).
  { unfold statAt in Hfile.
    destruct (walk (privileged w) (tree w) _) as [e|[]]; congruence. }
  eapply File_Write_file in Hwr as (_ & Hpriv & _ & Hwalk'); [|exact Hwalk].
  exists b. split; [reflexivity|].
  pose proof (Join_base_rooted [containerId; ociConfigFile]) as Hr.
  unfold fileContent, statAt. rewrite Hpriv.
  rewrite (resolve_rooted w') by exact Hr.
  cbn [file_node file_flag] in Hwalk'.
  rewrite (resolve_rooted w) in Hwalk' by exact Hr.
  now rewrite Hwalk'.
Qed.

(** So a shorter encoding written over a longer file does not leave the
    file equal to the encoding. *)
Lemma writeSpecToFile_stale_tail (spec : option specs.Spec)
    (containerId : string) (w w' : World) (fperm : Z) (old b : list byte) :
  statAt w (resolve w (CanonicalConfigPath containerId)) = inr (File fperm old) ->
  writeSpecToFile json_Marshal spec containerId w = (None, w') ->
  json_Marshal spec = inr b ->
  List.length (b ++ [x0a]) < List.length old ->
  fileContent w' (CanonicalConfigPath containerId) <> Some (b ++ [x0a]).
Proof.
  intros Hold H Hb Hlen.
  destruct (writeSpecToFile_over_existing _ _ _ _ _ _ Hold H) as (b' & Hb' & ->).
  assert (b' = b) as -> by congruence.
  intros E. injection E as E. apply (f_equal (@List.length byte)) in E.
  rewrite length_app, length_skipn in E. lia.
Qed.

End PersistTwice.

(** C2, at a failing input: a privileged agent persists [specA] and then the
    shorter [specB] for the same container id.  Both calls succeed; the
    file then holds the encoding of [specB] followed by the tail of the
    encoding of [specA], so it does not equal the encoding of the most
    recently persisted spec. *)
Theorem persist_twice_keeps_stale_tail :
  let r1 := writeSpecToFile plainMarshal (Some specA) "c1" bootWorld in
  let r2 := writeSpecToFile plainMarshal (Some specB) "c1" (snd r1) in
  fst r1 = None
  /\ fileContent (snd r1) (CanonicalConfigPath "c1") = Some (encoded specA)
  /\ fst r2 = None
  /\ fileContent (snd r2) (CanonicalConfigPath "c1")
     = Some (encoded specB ++ staleTail)
  /\ fileContent (snd r2) (CanonicalConfigPath "c1") <> Some (encoded specB).
Proof.
  cbv zeta. repeat split; try (vm_compute; reflexivity).
  vm_compute. discriminate.
Qed.

(** An unprivileged owner cannot even reopen the file: it was created with
    mode 0444, so the second persist fails and the first content stays. *)
Lemma persist_twice_unprivileged :
  let r1 := writeSpecToFile plainMarshal (Some specA) "c1" userWorld in
  let r2 := writeSpecToFile plainMarshal (Some specB) "c1" (snd r1) in
  fst r1 = None
  /\ fst r2 = Some (PathError "open" "/run/libcontainer/c1/config.json" EACCES)
  /\ fileContent (snd r2) (CanonicalConfigPath "c1") = Some (encoded specA).
Proof. cbv zeta. repeat split; vm_compute; reflexivity. Qed.

(** * Further properties of the four functions *)

(** ** [changeToBundlePath]: success, failure, restoring *)

Lemma os_Chdir_success (dir : string) (w w' : World) :
  os_Chdir dir w = (None, w') ->
  enterable w dir /\ w' = setCwd w (pathString (resolve w dir)).
Proof.
  unfold os_Chdir, enterable. intros H.
  destruct (String.eqb_spec dir "") as [->|Hne]; [discriminate|].
  destruct (statAt w (resolve w dir)) as [errno|[| perm es |]]; try discriminate.
  destruct (privileged w || canSearch perm) eqn:Hs; [|discriminate].
  injection H as <-. split; [|reflexivity]. split; [assumption|]. eauto.
Qed.

Lemma enterable_Chdir (dir : string) (w : World) :
  enterable w dir ->
  os_Chdir dir w = (None, setCwd w (pathString (resolve w dir))).
Proof.
  intros (Hne & perm & es & Hst & Hs). unfold os_Chdir.
  apply String.eqb_neq in Hne. now rewrite Hne, Hst, Hs.
Qed.

Lemma os_Stat_world (name : string) (w : World) : snd (os_Stat name w) = w.
Proof. reflexivity. Qed.

(** The whole of [changeToBundlePath], outcome by outcome. *)
Lemma changeToBundlePath_cases (spec : option specs.Spec) (containerId : string)
    (w : World) :
  (~ getwdSucceeds w
   /\ changeToBundlePath spec containerId w
      = (("", Some (SyscallError "getwd" ENOENT)), w))
  \/ (getwdSucceeds w /\ shapeInvalid spec
      /\ changeToBundlePath spec containerId w = ((cwd w, Some InvalidSpec), w))
  \/ (getwdSucceeds w /\ shapeValid spec
      /\ exists_ w (CanonicalConfigPath containerId) = false
      /\ changeToBundlePath spec containerId w = ((cwd w, Some InvalidBundle), w))
  \/ (exists s r,
        getwdSucceeds w /\ spec = Some s /\ specs.Spec_Root s = Some r
        /\ specs.Root_Path r <> ""
        /\ exists_ w (CanonicalConfigPath containerId) = true
        /\ changeToBundlePath spec containerId w
           = (let (err, w') := os_Chdir (filepath.Dir (specs.Root_Path r)) w in
              ((cwd w, err), w'))).
Proof.
  destruct (getwdSucceeds_dec w) as [Hok|Hko].
  2:{ left. split; [assumption|]. now apply changeToBundlePath_getwd_error. }
  right. unfold changeToBundlePath, bind. rewrite (getwdSucceeds_cwd w Hok).
  destruct spec as [s|].
  2:{ left. split; [assumption|]. split; [left; reflexivity | reflexivity]. }
  destruct (specs.Spec_Root s) as [r|] eqn:Hr.
  2:{ left. split; [assumption|]. split; [|reflexivity]. right; left. eauto. }
  destruct (String.eqb_spec (specs.Root_Path r) "") as [Hp|Hp].
  { left. split; [assumption|]. split; [|reflexivity]. right; right. eauto. }
  right.
  destruct (exists_ w (CanonicalConfigPath containerId)) eqn:Hex.
  - right. exists s, r. repeat (split; [assumption || reflexivity|]).
    unfold exists_, CanonicalConfigPath in Hex.
    pose proof (os_Stat_world
                  (filepath.Join [ociConfigBasePath; containerId; ociConfigFile]) w)
      as Hw.
    destruct (os_Stat _ w) as [[e|fi] w1]; [discriminate|].
    cbn [snd] in Hw. subst w1.
    destruct (os_Chdir _ w) as [err w2]. reflexivity.
  - left. split; [assumption|]. split; [exists s, r; auto|]. split; [reflexivity|].
    unfold exists_, CanonicalConfigPath in Hex.
    pose proof (os_Stat_world
                  (filepath.Join [ociConfigBasePath; containerId; ociConfigFile]) w)
      as Hw.
    destruct (os_Stat _ w) as [[e|fi] w1]; [|discriminate].
    cbn [snd] in Hw. subst w1. reflexivity.
Qed.

(** X1: a call that returns no error was made with a shape-valid spec, for
    a container whose config file exists; it hands back the old working
    directory, and leaves the process in the bundle directory
    [dirname(Root.Path)], which is a directory it may enter.  Nothing else
    of the world has changed. *)
Theorem changeToBundlePath_success (spec : option specs.Spec)
    (containerId d : string) (w w' : World) :
  changeToBundlePath spec containerId w = ((d, None), w') ->
  exists s r,
    spec = Some s /\ specs.Spec_Root s = Some r /\ specs.Root_Path r <> ""
    /\ d = cwd w
    /\ exists_ w (CanonicalConfigPath containerId) = true
    /\ enterable w (filepath.Dir (specs.Root_Path r))
    /\ w' = setCwd w (pathString (resolve w (filepath.Dir (specs.Root_Path r)))).
Proof.
  intros H.
  destruct (changeToBundlePath_cases spec containerId w)
    as [[_ E] | [(_ & _ & E) | [(_ & _ & _ & E) | (s & r & _ & Hs & Hr & Hp & Hex & E)]]];
    rewrite E in H; try discriminate.
  destruct (os_Chdir _ w) as [err w2] eqn:Hcd.
  injection H as <- -> <-.
  apply os_Chdir_success in Hcd as [Hent ->].
  exists s, r. auto 10.
Qed.

Lemma changeToBundlePath_success_witness :
  exists s r,
    Some specA = Some s /\ specs.Spec_Root s = Some r /\ specs.Root_Path r <> ""
    /\ "/" = cwd persistedWorld
    /\ exists_ persistedWorld (CanonicalConfigPath "c1") = true
    /\ enterable persistedWorld (filepath.Dir (specs.Root_Path r))
    /\ setCwd persistedWorld "/containers/c1"
       = setCwd persistedWorld
           (pathString (resolve persistedWorld (filepath.Dir (specs.Root_Path r)))).
Proof.
  apply (changeToBundlePath_success (Some specA) "c1" "/" persistedWorld
           (setCwd persistedWorld "/containers/c1")).
  vm_compute. reflexivity.
Defined.

(** X2: [changeToBundlePath] never touches the file tree or the sink, and
    whenever it returns an error it has changed nothing at all: the working
    directory moves only on success. *)
Theorem changeToBundlePath_frame (spec : option specs.Spec)
    (containerId : string) (w : World) :
  let r := changeToBundlePath spec containerId w in
  tree (snd r) = tree w /\ sink (snd r) = sink w
  /\ privileged (snd r) = privileged w /\ umask (snd r) = umask w
  /\ (snd (fst r) <> None -> snd r = w).
Proof.
  cbv zeta.
  destruct (changeToBundlePath_cases spec containerId w)
    as [[_ E] | [(_ & _ & E) | [(_ & _ & _ & E) | (s & r & _ & _ & _ & _ & _ & E)]]];
    rewrite E; try (cbn [fst snd]; auto 10; fail).
  destruct (os_Chdir _ w) as [[e|] w2] eqn:Hcd; cbn [fst snd].
  - apply os_Chdir_cwd in Hcd as [-> _]. auto 10.
  - apply os_Chdir_success in Hcd as [_ ->].
    repeat split; try reflexivity. congruence.
Qed.

(** X3: after a successful call, changing to the returned string puts the
    process back where it was, provided the old working directory was an
    absolute path the process may enter. *)
Theorem enter_then_restore (spec : option specs.Spec)
    (containerId d : string) (w w' : World) :
  changeToBundlePath spec containerId w = ((d, None), w') ->
  path.isRooted (cwd w) = true ->
  enterable w (cwd w) ->
  os_Chdir d w' = (None, setCwd w (pathString (resolve w (cwd w)))).
Proof.
  intros H Hroot Hent.
  destruct (changeToBundlePath_cases spec containerId w)
    as [[_ E] | [(_ & _ & E) | [(_ & _ & _ & E) | (s & r & _ & _ & _ & _ & _ & E)]]];
    rewrite E in H; try discriminate.
  destruct (os_Chdir _ w) as [err w2] eqn:Hcd.
  injection H as <- -> <-.
  apply os_Chdir_success in Hcd as [_ ->].
  destruct Hent as (Hne & perm & es & Hst & Hs).
  assert (Hres : forall c, resolve (setCwd w c) (cwd w) = resolve w (cwd w))
    by (intros c; now rewrite !resolve_rooted).
  unfold os_Chdir. apply String.eqb_neq in Hne. rewrite Hne, Hres.
  unfold statAt in *. cbn [privileged tree setCwd]. 
  destruct (walk (privileged w) (tree w) (resolve w (cwd w))) as [e|[]];
    try discriminate.
  injection Hst as -> ->. rewrite Hs. reflexivity.
Qed.

Lemma enter_then_restore_witness :
  changeToBundlePath (Some specA) "c1" persistedWorld
  = (("/", None), setCwd persistedWorld "/containers/c1")
  /\ os_Chdir "/" (setCwd persistedWorld "/containers/c1")
     = (None, setCwd persistedWorld
                (pathString (resolve persistedWorld (cwd persistedWorld)))).
Proof.
  assert (H : changeToBundlePath (Some specA) "c1" persistedWorld
              = (("/", None), setCwd persistedWorld "/containers/c1"))
    by (vm_compute; reflexivity).
  split; [exact H|].
  apply (enter_then_restore (Some specA) "c1" "/" persistedWorld _ H).
  - reflexivity.
  - split; [discriminate|]. eexists _, _. split; vm_compute; reflexivity.
Defined.

(** ** [os.MkdirAll] and [os.OpenFile] as [writeSpecToFile] uses them *)

Lemma sameProcess_refl (w : World) : sameProcess w w.
Proof. repeat split. Qed.

Lemma sameProcess_trans (w1 w2 w3 : World) :
  sameProcess w1 w2 -> sameProcess w2 w3 -> sameProcess w1 w3.
Proof. unfold sameProcess. intuition congruence. Qed.

Lemma sameProcess_setTree (w : World) (t : node) : sameProcess w (setTree w t).
Proof. repeat split. Qed.

(** [mkdir] either fails and changes nothing, or puts an empty directory
    into an existing, searchable parent. *)
Lemma mkdirAt_cases (p : list string) (perm : Z) (w w' : World)
    (r : option error) :
  mkdirAt p perm w = (r, w') ->
  (w' = w /\ exists errno, r = Some (PathError "mkdir" (pathString p) errno))
  \/ (r = None
      /\ w' = setTree w (update (tree w) p
                           (Directory (Z.land perm (Z.lnot (umask w))) []))
      /\ exists parent c dperm es,
           p = parent ++ [c]
           /\ walk (privileged w) (tree w) parent = inr (Directory dperm es)
           /\ privileged w || canSearch dperm = true).
Proof.
  unfold mkdirAt. intros H.
  destruct (rev p) as [|c rparent] eqn:Hrev.
  { injection H as <- <-. left. eauto. }
  assert (Hp : p = rev rparent ++ [c])
    by (rewrite <- (rev_involutive p), Hrev; reflexivity).
  destruct (statAt w (rev rparent)) as [e|[| dperm es |]] eqn:Hst;
    try (injection H as <- <-; left; eauto).
  apply statAt_dir_walk in Hst.
  destruct (privileged w || canSearch dperm) eqn:Hs; cbn [negb] in H;
    [|injection H as <- <-; left; eauto].
  destruct (lookupEntry c es); [injection H as <- <-; left; eauto|].
  destruct (privileged w || canWrite dperm);
    injection H as <- <-; [|left; eauto].
  right. split; [reflexivity|]. split; [reflexivity|].
  exists (rev rparent), c, dperm, es. auto.
Qed.

(** A successful [MkdirAll] found the directory in place and changed
    nothing, or left it newly made and empty; either way only the tree can
    differ.  A failed one reports a [PathError]. *)
Lemma mkdirAllFrom_cases (rp : list string) (perm : Z) (w w' : World)
    (r : option error) :
  mkdirAllFrom rp perm w = (r, w') ->
  sameProcess w w'
  /\ match r with
     | Some e => exists p errno, e = PathError "mkdir" p errno
     | None =>
         (w' = w /\ exists dperm es, statAt w (rev rp) = inr (Directory dperm es))
         \/ exists e0 dperm,
              statAt w (rev rp) = inl e0
              /\ statAt w' (rev rp) = inr (Directory dperm [])
     end.
Proof.
  revert w w' r. induction rp as [|c rparent IH]; intros w w' r H.
  - cbn [mkdirAllFrom] in H.
    destruct (statAt w (rev [])) as [e|nd] eqn:Hst.
    + apply mkdirAt_cases in H as [[-> [errno ->]] | (_ & _ & parent & c & dperm & es & Hp & _)].
      * split; [apply sameProcess_refl | eauto].
      * now apply app_cons_not_nil in Hp.
    + destruct nd as [| dperm es |]; cbn [isDirNode] in H; injection H as <- <-;
        (split; [apply sameProcess_refl|]); eauto.
  - cbn [mkdirAllFrom] in H.
    destruct (statAt w (rev (c :: rparent))) as [e|nd] eqn:Hst.
    2:{ destruct nd as [| dperm es |]; cbn [isDirNode] in H; injection H as <- <-;
          (split; [apply sameProcess_refl|]); eauto. }
    assert (Hpar : exists rpar w1,
               (match rparent with
                | [] => (None, w)
                | _ :: _ => mkdirAllFrom rparent perm w
                end) = (rpar, w1)
               /\ sameProcess w w1
               /\ match rpar with
                  | Some e0 => exists p errno, e0 = PathError "mkdir" p errno
                  | None => w1 = w
                            \/ exists dperm,
                                 statAt w1 (rev rparent) = inr (Directory dperm [])
                  end).
    { destruct rparent as [|c' rpp].
      - exists None, w. split; [reflexivity|]. split; [apply sameProcess_refl | auto].
      - destruct (mkdirAllFrom (c' :: rpp) perm w) as [rpar w1] eqn:Hrec.
        exists rpar, w1. split; [reflexivity|].
        destruct (IH _ _ _ Hrec) as [Hsp Hres]. split; [assumption|].
        destruct rpar; [assumption|].
        destruct Hres as [[-> _]|(e0 & dperm & _ & Hres)]; eauto. }
    destruct Hpar as (rpar & w1 & Hrec & Hsp & Hres). rewrite Hrec in H.
    destruct rpar as [e0|]; [injection H as <- <-; auto|].
    destruct (mkdirAt (rev (c :: rparent)) perm w1) as [err2 w2] eqn:Hmk.
    apply mkdirAt_cases in Hmk
      as [[-> [errno ->]] | (-> & -> & parent & c0 & dperm & es & Hp & Hwalk & Hs)].
    + (* mkdir failed: the second look cannot find a directory *)
      destruct (lstatAt w1 (rev (c :: rparent))) as [e1|nd] eqn:Hl;
        [injection H as <- <-; split; eauto|].
      destruct nd as [| dperm es |]; cbn [isDirNode] in H;
        try (injection H as <- <-; split; eauto).
      exfalso. unfold lstatAt in Hl. destruct Hres as [->|[dperm0 Hd]].
      * unfold statAt in Hst. rewrite Hl in Hst. discriminate.
      * apply statAt_dir_walk in Hd. cbn [rev] in Hl.
        rewrite walk_app, Hd in Hl. cbn [walk lookupEntry] in Hl.
        destruct (privileged w1 || canSearch dperm0); discriminate.
    + injection H as <- <-.
      split; [eapply sameProcess_trans; [exact Hsp | apply sameProcess_setTree]|].
      right. exists e. eexists. split; [reflexivity|].
      unfold statAt. cbn [privileged tree setTree].
      cbn [rev] in Hp |- *. rewrite Hp.
      erewrite walk_update_entry by eassumption. reflexivity.
Qed.

(** Opening the config file the way [writeSpecToFile] does: an existing
    regular file is opened as it is, a missing one is created empty with
    mode 0444 less the umask. *)
Lemma openForPersist (name : string) (w w2 : World) (f : OpenedFile) :
  os_OpenFile name (Z.lor os.O_WRONLY os.O_CREATE) ociConfigFileMode w
  = (inr f, w2) ->
  exists parent c dperm es,
    resolve w name = parent ++ [c]
    /\ statAt w parent = inr (Directory dperm es)
    /\ privileged w || canSearch dperm = true
    /\ ((exists fperm data, lookupEntry c es = Some (File fperm data) /\ w2 = w)
        \/ (lookupEntry c es = None
            /\ w2 = setTree w
                      (update (tree w) (parent ++ [c])
                         (File (Z.land ociConfigFileMode (Z.lnot (umask w))) [])))).
Proof.
  unfold os_OpenFile. intros H.
  destruct (name =? ""); [discriminate|].
  change (forWriting (Z.lor os.O_WRONLY os.O_CREATE)) with true in H.
  change (hasFlag (Z.lor os.O_WRONLY os.O_CREATE) os.O_CREATE) with true in H.
  change (hasFlag (Z.lor os.O_WRONLY os.O_CREATE) os.O_EXCL) with false in H.
  change (hasFlag (Z.lor os.O_WRONLY os.O_CREATE) os.O_TRUNC) with false in H.
  destruct (rev (resolve w name)) as [|c rparent] eqn:Hrev; [discriminate|].
  assert (Hp : resolve w name = rev rparent ++ [c])
    by (rewrite <- (rev_involutive (resolve w name)), Hrev; reflexivity).
  destruct (statAt w (rev rparent)) as [e|[| dperm es |]] eqn:Hst; try discriminate.
  destruct (privileged w || canSearch dperm) eqn:Hs; [|discriminate].
  cbn [negb andb] in H.
  exists (rev rparent), c, dperm, es. repeat (split; [assumption|]).
  destruct (lookupEntry c es) as [[fperm data| |]|] eqn:Hl; try discriminate.
  - left. exists fperm, data. split; [reflexivity|].
    destruct (negb (privileged w || canWrite fperm)); [discriminate|].
    now injection H as _ <-.
  - right. split; [reflexivity|].
    destruct (privileged w || canWrite dperm); [|discriminate].
    rewrite <- Hp. now injection H as _ <-.
Qed.

Lemma os_OpenFile_error (name : string) (flag perm : Z) (w w' : World)
    (e : error) :
  os_OpenFile name flag perm w = (inl e, w') ->
  w' = w /\ exists errno, e = PathError "open" name errno.
Proof.
  unfold os_OpenFile. intros H.
  repeat match type of H with
         | (if ?c then _ else _) = _ => destruct c
         | match ?x with _ => _ end = _ => destruct x
         end;
    try discriminate; injection H as <- <-; eauto.
Qed.

Lemma config_dir_nonempty (containerId : string) :
  (filepath.Join [ociConfigBasePath; containerId] =? "") = false.
Proof.
  pose proof (Join_base_rooted [containerId]) as Hr. unfold filepath.Join.
  destruct (path.Join [ociConfigBasePath; containerId]);
    [discriminate | reflexivity].
Qed.

Lemma resolve_sameProcess (w w' : World) (name : string) :
  sameProcess w w' -> resolve w' name = resolve w name.
Proof. intros (Hc & _). unfold resolve. now rewrite Hc. Qed.

Lemma exists_config (w : World) (containerId : string) :
  exists_ w (CanonicalConfigPath containerId)
  = match statAt w (resolve w (CanonicalConfigPath containerId)) with
    | inr _ => true
    | inl _ => false
    end.
Proof.
  unfold exists_, os_Stat, gets. cbn [fst].
  rewrite CanonicalConfigPath_nonempty.
  now destruct (statAt w (resolve w (CanonicalConfigPath containerId))).
Qed.

Lemma resolve_config_any (w w' : World) (containerId : string) :
  resolve w' (CanonicalConfigPath containerId)
  = resolve w (CanonicalConfigPath containerId).
Proof.
  pose proof (Join_base_rooted [containerId; ociConfigFile]) as Hr.
  now rewrite !resolve_rooted.
Qed.

Lemma resolve_config_dir_any (w w' : World) (containerId : string) :
  resolve w' (filepath.Join [ociConfigBasePath; containerId])
  = resolve w (filepath.Join [ociConfigBasePath; containerId]).
Proof.
  pose proof (Join_base_rooted [containerId]) as Hr.
  now rewrite !resolve_rooted.
Qed.

Section WriteSpecCases.

Variable json_Marshal : option specs.Spec -> error + list byte.

(** The whole of [writeSpecToFile], outcome by outcome: the directory could
    not be made; the file could not be opened; or the file was opened, as
    it was or newly created and empty, and then either the encoding failed
    and the file stayed as opened, or the encoding was written over its
    front. *)
Lemma writeSpecToFile_cases (spec : option specs.Spec) (containerId : string)
    (w w' : World) (r : option error) :
  writeSpecToFile json_Marshal spec containerId w = (r, w') ->
  sameProcess w w'
  /\ ((exists p errno, r = Some (PathError "mkdir" p errno))
      \/ (exists errno,
            r = Some (PathError "open" (CanonicalConfigPath containerId) errno))
      \/ (exists w2 fperm old,
            sameProcess w w2
            /\ walk (privileged w) (tree w2)
                 (resolve w (CanonicalConfigPath containerId))
               = inr (File fperm old)
            /\ (w2 = w
                \/ (exists_ w (CanonicalConfigPath containerId) = false
                    /\ old = []
                    /\ fperm = Z.land ociConfigFileMode (Z.lnot (umask w))))
            /\ match json_Marshal spec with
               | inl e => r = Some e /\ w' = w2
               | inr b =>
                   r = None
                   /\ w' = setTree w2
                             (update (tree w2)
                                (resolve w (CanonicalConfigPath containerId))
                                (File fperm
                                   ((b ++ [x0a])
                                      ++ skipn (List.length (b ++ [x0a])) old)))
               end)).
Proof.
  unfold writeSpecToFile, bind. intros H.
  destruct (os_MkdirAll _ _ w) as [rmk w1] eqn:Hmk.
  unfold os_MkdirAll in Hmk. rewrite config_dir_nonempty in Hmk.
  apply mkdirAllFrom_cases in Hmk as [Hsp1 Hres1].
  rewrite rev_involutive in Hres1.
  destruct rmk as [e|].
  { injection H as <- <-. split; [assumption|]. left.
    destruct Hres1 as (p & errno & ->). eauto. }
  rewrite CanonicalConfigPath_nested in H.
  destruct (os_OpenFile _ _ _ w1) as [[e|f] w2] eqn:Ho.
  { apply os_OpenFile_error in Ho as [-> [errno ->]].
    injection H as <- <-. split; [assumption|]. right; left. eauto. }
  pose proof (openForPersist _ _ _ _ Ho)
    as (parent & c & dperm & es & Hp & Hdir & Hs & Hcase).
  apply os_OpenFile_file in Ho as (-> & _ & _ & _ & _); [|reflexivity].
  rewrite (resolve_config_any w w1) in *.
  rewrite (resolve_config_path w) in Hp.
  apply app_inj_tail in Hp as [<- <-].
  assert (Hpriv : privileged w1 = privileged w) by apply Hsp1.
  assert (Hum : umask w1 = umask w) by apply Hsp1.
  (* the file as it stands once opened *)
  assert (Hopened : exists fperm old,
             sameProcess w w2
             /\ walk (privileged w) (tree w2)
                  (resolve w (CanonicalConfigPath containerId))
                = inr (File fperm old)
             /\ (w2 = w
                 \/ (exists_ w (CanonicalConfigPath containerId) = false
                     /\ old = []
                     /\ fperm = Z.land ociConfigFileMode (Z.lnot (umask w))))).
  { rewrite (resolve_config_path w).
    destruct Hcase as [(fperm & data & Hl & ->) | (Hl & ->)].
    - exists fperm, data. split; [assumption|].
      assert (w1 = w) as ->.
      { destruct Hres1 as [[-> _] | (e0 & d0 & _ & Hd)]; [reflexivity|].
        rewrite Hd in Hdir. injection Hdir as <- <-. discriminate. }
      split; [|left; reflexivity].
      apply statAt_dir_walk in Hdir. rewrite walk_app, Hdir. cbn [walk].
      now rewrite Hs, Hl.
    - eexists _, []. split.
      { eapply sameProcess_trans; [exact Hsp1 | apply sameProcess_setTree]. }
      split.
      + cbn [tree setTree]. rewrite <- Hpriv.
        apply statAt_dir_walk in Hdir.
        eapply walk_update_entry; eassumption.
      + right. split; [|split; [reflexivity | now rewrite Hum]].
        rewrite exists_config, (resolve_config_path w).
        destruct Hres1 as [[-> _] | (e0 & d0 & Hfail & _)].
        * apply statAt_dir_walk in Hdir. unfold statAt.
          rewrite walk_app, Hdir. cbn [walk]. now rewrite Hs, Hl.
        * unfold statAt in *. rewrite walk_app.
          destruct (walk (privileged w) (tree w)
                      (resolve w (filepath.Join [ociConfigBasePath; containerId])))
            as [e1|[| |]]; try discriminate; reflexivity. }
  destruct Hopened as (fperm & old & Hsp2 & Hwalk & Horigin).
  unfold json_Encode in H.
  destruct (json_Marshal spec) as [e|b].
  { injection H as <- <-. split; [assumption|]. right; right.
    exists w2, fperm, old. auto. }
  unfold bind, File_Write in H. cbn [file_node file_flag] in H.
  rewrite (walk_privileged _ _ _ _ Hwalk) in H.
  change (forWriting (Z.lor os.O_WRONLY os.O_CREATE)) with true in H.
  change (hasFlag (Z.lor os.O_WRONLY os.O_CREATE) os.O_APPEND) with false in H.
  cbn in H. injection H as <- <-.
  split; [eapply sameProcess_trans; [exact Hsp2 | apply sameProcess_setTree]|].
  right; right. exists w2, fperm, old. auto.
Qed.

End WriteSpecCases.

(** ** [writeSpecToFile]: first persist, persisting again, failed encodings *)

Lemma canWrite_config_mode (u : Z) :
  canWrite (Z.land ociConfigFileMode (Z.lnot u)) = false.
Proof. unfold canWrite. now rewrite Z.land_spec. Qed.

Lemma statAt_walk_file (w : World) (p : list string) (fperm : Z)
    (data : list byte) :
  walk (privileged w) (tree w) p = inr (File fperm data) ->
  statAt w p = inr (File fperm data).
Proof. unfold statAt. now intros ->. Qed.

Lemma statAt_file_walk (w : World) (p : list string) (fperm : Z)
    (data : list byte) :
  statAt w p = inr (File fperm data) ->
  walk (privileged w) (tree w) p = inr (File fperm data).
Proof.
  unfold statAt. destruct (walk (privileged w) (tree w) p) as [e|[]]; congruence.
Qed.

Section WriteSpecMore.

Variable json_Marshal : option specs.Spec -> error + list byte.

(** With a regular file already at the canonical path, the call comes down
    to this: refused when the file may not be written, else the encoding
    error, else the encoding laid over the front of the old content. *)
Lemma writeSpecToFile_existing (spec : option specs.Spec) (containerId : string)
    (w : World) (fperm : Z) (old : list byte) :
  statAt w (resolve w (CanonicalConfigPath containerId)) = inr (File fperm old) ->
  writeSpecToFile json_Marshal spec containerId w
  = if privileged w || canWrite fperm then
      match json_Marshal spec with
      | inl e => (Some e, w)
      | inr b =>
          (None,
           setTree w
             (update (tree w) (resolve w (CanonicalConfigPath containerId))
                (File fperm ((b ++ [x0a]) ++ skipn (List.length (b ++ [x0a])) old))))
      end
    else (Some (PathError "open" (CanonicalConfigPath containerId) EACCES), w).
Proof.
  intros Hfile. pose proof (statAt_file_walk _ _ _ _ Hfile) as Hwalk.
  rewrite resolve_config_path in Hfile.
  apply statAt_file_parent in Hfile as (dperm & es & Hdir & Hs & Hl).
  unfold writeSpecToFile, bind.
  assert (Hmk : os_MkdirAll (filepath.Join [ociConfigBasePath; containerId])
                  448%Z w = (None, w)).
  { unfold os_MkdirAll. rewrite config_dir_nonempty.
    eapply mkdirAllFrom_existing. rewrite rev_involutive. exact Hdir. }
  rewrite Hmk, CanonicalConfigPath_nested.
  unfold os_OpenFile.
  rewrite CanonicalConfigPath_nonempty, resolve_config_path, rev_app_distr.
  cbn [rev app]. rewrite rev_involutive, Hdir, Hs, Hl. cbn [negb].
  change (hasFlag (Z.lor os.O_WRONLY os.O_CREATE) os.O_CREATE
          && hasFlag (Z.lor os.O_WRONLY os.O_CREATE) os.O_EXCL) with false.
  change (forWriting (Z.lor os.O_WRONLY os.O_CREATE)) with true.
  change (hasFlag (Z.lor os.O_WRONLY os.O_CREATE) os.O_TRUNC) with false.
  cbn [andb negb].
  destruct (privileged w || canWrite fperm); cbn [negb]; [|reflexivity].
  unfold json_Encode. destruct (json_Marshal spec) as [e|b]; [reflexivity|].
  unfold bind, File_Write. cbn [file_node file_flag].
  rewrite <- resolve_config_path, (walk_privileged _ _ _ _ Hwalk).
  reflexivity.
Qed.

(** X4: once a persist for a container id has succeeded, entering the bundle
    for that id is never answered with [InvalidBundle], whatever spec is
    passed. *)
Theorem persist_then_enter (spec spec' : option specs.Spec)
    (containerId : string) (w w' : World) :
  writeSpecToFile json_Marshal spec containerId w = (None, w') ->
  snd (fst (changeToBundlePath spec' containerId w')) <> Some InvalidBundle.
Proof.
  intros H. apply writeSpecToFile_success in H as (b & fperm & old & _ & Hst).
  assert (Hex : exists_ w' (CanonicalConfigPath containerId) = true)
    by now rewrite exists_config, Hst.
  destruct (changeToBundlePath_cases spec' containerId w')
    as [[_ E] | [(_ & _ & E) | [(_ & _ & Hno & _) | (s & r & _ & _ & _ & _ & _ & E)]]];
    try (rewrite E; cbn [fst snd]; discriminate); [congruence|].
  rewrite E. destruct (os_Chdir _ w') as [[e|] w2] eqn:Hcd; cbn [fst snd];
    [|discriminate].
  apply os_Chdir_cwd in Hcd as [_ [errno ->]]. discriminate.
Qed.

(** The state a first, successful persist leaves behind. *)
Lemma writeSpecToFile_fresh (spec : option specs.Spec) (containerId : string)
    (w w' : World) :
  exists_ w (CanonicalConfigPath containerId) = false ->
  writeSpecToFile json_Marshal spec containerId w = (None, w') ->
  sameProcess w w'
  /\ exists b,
       json_Marshal spec = inr b
       /\ statAt w' (resolve w' (CanonicalConfigPath containerId))
          = inr (File (Z.land ociConfigFileMode (Z.lnot (umask w))) (b ++ [x0a])).
Proof.
  intros Hex H.
  apply writeSpecToFile_cases in H
    as [Hsp [(p & n & E) | [(n & E) | (w2 & fperm & old & Hsp2 & Hwalk & Hor & Henc)]]];
    try discriminate.
  split; [assumption|].
  destruct Hor as [-> | (_ & -> & ->)].
  { rewrite exists_config, (statAt_walk_file _ _ _ _ Hwalk) in Hex. discriminate. }
  destruct (json_Marshal spec) as [e|b]; [destruct Henc; discriminate|].
  destruct Henc as [_ ->]. exists b. split; [reflexivity|].
  rewrite (resolve_config_any w (setTree _ _)).
  unfold statAt. cbn [privileged tree setTree].
  replace (privileged w2) with (privileged w) by (symmetry; apply Hsp2).
  erewrite walk_update by exact Hwalk.
  now rewrite skipn_nil, app_nil_r.
Qed.

(** X5: the first persist for a container id, when it succeeds, leaves at
    the canonical path a file that holds exactly the encoding followed by a
    newline, and that [os.Stat] reports as "config.json" with mode 0444
    less the umask. *)
Theorem first_persist_exact (spec : option specs.Spec) (containerId : string)
    (w w' : World) :
  exists_ w (CanonicalConfigPath containerId) = false ->
  writeSpecToFile json_Marshal spec containerId w = (None, w') ->
  exists b,
    json_Marshal spec = inr b
    /\ fileContent w' (CanonicalConfigPath containerId) = Some (b ++ [x0a])
    /\ fst (os_Stat (CanonicalConfigPath containerId) w')
       = inr {| os.Name := ociConfigFile;
                os.Mode := Z.land (Z.land ociConfigFileMode (Z.lnot (umask w)))
                             os.ModePerm |}.
Proof.
  intros Hex H.
  destruct (writeSpecToFile_fresh _ _ _ _ Hex H) as (_ & b & Hb & Hst).
  exists b. split; [assumption|]. split.
  - unfold fileContent. now rewrite Hst.
  - unfold os_Stat, gets. cbn [fst].
    rewrite CanonicalConfigPath_nonempty, Hst, resolve_config_path, last_last.
    reflexivity.
Qed.

(** X6: persisting over an existing config file leaves exactly the new
    encoding in it if and only if the new encoding (with its newline) is at
    least as long as the old content. *)
Theorem repersist_exact_iff (spec : option specs.Spec) (containerId : string)
    (w w' : World) (fperm : Z) (old b : list byte) :
  statAt w (resolve w (CanonicalConfigPath containerId)) = inr (File fperm old) ->
  writeSpecToFile json_Marshal spec containerId w = (None, w') ->
  json_Marshal spec = inr b ->
  fileContent w' (CanonicalConfigPath containerId) = Some (b ++ [x0a])
  <-> List.length old <= List.length (b ++ [x0a]).
Proof.
  intros Hold H Hb.
  destruct (writeSpecToFile_over_existing _ _ _ _ _ _ _ Hold H) as (b' & Hb' & ->).
  assert (b' = b) as -> by congruence.
  split.
  - intros E. injection E as E. apply (f_equal (@List.length byte)) in E.
    rewrite length_app, length_skipn in E. lia.
  - intros Hle. now rewrite skipn_all2, app_nil_r.
Qed.

(** X7: for an unprivileged process persisting is one-shot: after a first,
    successful persist for a fresh container id, every further persist for
    that id fails at [OpenFile] with EACCES and changes nothing, because
    the file was created without a write bit. *)
Theorem unprivileged_persist_once (spec spec' : option specs.Spec)
    (containerId : string) (w w' : World) :
  privileged w = false ->
  exists_ w (CanonicalConfigPath containerId) = false ->
  writeSpecToFile json_Marshal spec containerId w = (None, w') ->
  writeSpecToFile json_Marshal spec' containerId w'
  = (Some (PathError "open" (CanonicalConfigPath containerId) EACCES), w').
Proof.
  intros Hpriv Hex H.
  destruct (writeSpecToFile_fresh _ _ _ _ Hex H) as (Hsp & b & _ & Hst).
  rewrite (writeSpecToFile_existing _ _ _ _ _ Hst).
  replace (privileged w') with false by (rewrite <- Hpriv; symmetry; apply Hsp).
  now rewrite canWrite_config_mode.
Qed.

(** X8: when the spec cannot be encoded and a config file is already in
    place, the call changes nothing: the old content stays. *)
Theorem failed_encoding_keeps_file (spec : option specs.Spec)
    (containerId : string) (w : World) (fperm : Z) (old : list byte) (e : error) :
  statAt w (resolve w (CanonicalConfigPath containerId)) = inr (File fperm old) ->
  json_Marshal spec = inl e ->
  snd (writeSpecToFile json_Marshal spec containerId w) = w
  /\ fst (writeSpecToFile json_Marshal spec containerId w) <> None.
Proof.
  intros Hold He. rewrite (writeSpecToFile_existing _ _ _ _ _ Hold), He.
  destruct (privileged w || canWrite fperm); split; cbn; congruence.
Qed.

(** X9: the encoding is attempted only after the file was opened: when the
    call returns the encoder's error, config.json is nevertheless in place
    afterwards, and it is empty if nothing was there before. *)
Theorem failed_encoding_leaves_file (spec : option specs.Spec)
    (containerId : string) (w w' : World) (e : error) :
  json_Marshal spec = inl e ->
  (forall op p errno, e <> PathError op p errno) ->
  writeSpecToFile json_Marshal spec containerId w = (Some e, w') ->
  exists_ w' (CanonicalConfigPath containerId) = true
  /\ (exists_ w (CanonicalConfigPath containerId) = false ->
      fileContent w' (CanonicalConfigPath containerId) = Some []).
Proof.
  intros He Hnp H.
  apply writeSpecToFile_cases in H
    as [Hsp [(p & n & E) | [(n & E) | (w2 & fperm & old & Hsp2 & Hwalk & Hor & Henc)]]].
  - injection E as ->. now destruct (Hnp _ _ _ eq_refl).
  - injection E as ->. now destruct (Hnp _ _ _ eq_refl).
  - rewrite He in Henc. destruct Henc as [_ ->].
    assert (Hst : statAt w2 (resolve w2 (CanonicalConfigPath containerId))
                  = inr (File fperm old)).
    { rewrite (resolve_config_any w w2). apply statAt_walk_file.
      replace (privileged w2) with (privileged w) by (symmetry; apply Hsp2).
      exact Hwalk. }
    split; [now rewrite exists_config, Hst|].
    intros Hex. unfold fileContent. rewrite Hst.
    destruct Hor as [-> | (_ & -> & _)]; [|reflexivity].
    rewrite exists_config, Hst in Hex. discriminate.
Qed.

(** X10: [writeSpecToFile] acts on the file tree only: in every outcome the
    working directory, the privileges, the umask and the sink are as
    before. *)
Theorem writeSpecToFile_frame (spec : option specs.Spec) (containerId : string)
    (w : World) :
  sameProcess w (snd (writeSpecToFile json_Marshal spec containerId w)).
Proof.
  destruct (writeSpecToFile json_Marshal spec containerId w) as [r w'] eqn:H.
  now apply writeSpecToFile_cases in H as [Hsp _].
Qed.

End WriteSpecMore.

Lemma persist_then_enter_witness :
  writeSpecToFile plainMarshal (Some specA) "c1" bootWorld = (None, persistedWorld)
  /\ snd (fst (changeToBundlePath (Some specB) "c1" persistedWorld))
     <> Some InvalidBundle.
Proof.
  assert (H : writeSpecToFile plainMarshal (Some specA) "c1" bootWorld
              = (None, persistedWorld)) by (vm_compute; reflexivity).
  split; [exact H|].
  exact (persist_then_enter plainMarshal (Some specA) (Some specB) "c1"
           bootWorld persistedWorld H).
Defined.

Lemma first_persist_exact_witness :
  exists b,
    plainMarshal (Some specA) = inr b
    /\ fileContent persistedWorld (CanonicalConfigPath "c1") = Some (b ++ [x0a])
    /\ fst (os_Stat (CanonicalConfigPath "c1") persistedWorld)
       = inr {| os.Name := ociConfigFile;
                os.Mode := Z.land (Z.land ociConfigFileMode
                                     (Z.lnot (umask bootWorld))) os.ModePerm |}.
Proof.
  apply (first_persist_exact plainMarshal (Some specA) "c1" bootWorld).
  - reflexivity.
  - vm_compute. reflexivity.
Defined.

Lemma repersist_exact_iff_witness :
  fileContent (snd (writeSpecToFile plainMarshal (Some specA) "c1" persistedWorld))
    (CanonicalConfigPath "c1")
  = Some (list_byte_of_string (plainSpec (Some specA)) ++ [x0a])
  <-> List.length (encoded specA)
      <= List.length (list_byte_of_string (plainSpec (Some specA)) ++ [x0a]).
Proof.
  apply (repersist_exact_iff plainMarshal (Some specA) "c1" persistedWorld _
           292 (encoded specA)).
  - vm_compute. reflexivity.
  - vm_compute. reflexivity.
  - reflexivity.
Defined.

Lemma unprivileged_persist_once_witness :
  writeSpecToFile plainMarshal (Some specA) "c1" userWorld
  = (None, persistedUserWorld)
  /\ writeSpecToFile plainMarshal (Some specB) "c1" persistedUserWorld
     = (Some (PathError "open" (CanonicalConfigPath "c1") EACCES),
        persistedUserWorld).
Proof.
  assert (H : writeSpecToFile plainMarshal (Some specA) "c1" userWorld
              = (None, persistedUserWorld)) by (vm_compute; reflexivity).
  split; [exact H|].
  apply (unprivileged_persist_once plainMarshal (Some specA) (Some specB) "c1"
           userWorld persistedUserWorld); [reflexivity | reflexivity | exact H].
Defined.

Lemma failed_encoding_keeps_file_witness :
  snd (writeSpecToFile brokenMarshal (Some specB) "c1" persistedWorld)
  = persistedWorld
  /\ fst (writeSpecToFile brokenMarshal (Some specB) "c1" persistedWorld) <> None.
Proof.
  apply (failed_encoding_keeps_file brokenMarshal (Some specB) "c1"
           persistedWorld 292 (encoded specA)
           (MarshalerError "json: unsupported value")).
  - vm_compute. reflexivity.
  - reflexivity.
Defined.

Lemma failed_encoding_leaves_file_witness :
  exists_ (snd (writeSpecToFile brokenMarshal (Some specA) "c1" bootWorld))
    (CanonicalConfigPath "c1") = true
  /\ (exists_ bootWorld (CanonicalConfigPath "c1") = false ->
      fileContent (snd (writeSpecToFile brokenMarshal (Some specA) "c1" bootWorld))
        (CanonicalConfigPath "c1") = Some []).
Proof.
  apply (failed_encoding_leaves_file brokenMarshal (Some specA) "c1" bootWorld _
           (MarshalerError "json: unsupported value")).
  - reflexivity.
  - intros op p errno. discriminate.
  - vm_compute. reflexivity.
Defined.

(** ** [findHooks]: what it reads, what it returns *)

Lemma File_Readdir_ext (dirname : string) (w w' : World) :
  tree w' = tree w -> cwd w' = cwd w -> privileged w' = privileged w ->
  File_Readdir dirname w' = File_Readdir dirname w.
Proof.
  intros Ht Hc Hp. unfold File_Readdir, statAt, resolve. now rewrite Ht, Hc, Hp.
Qed.

(** X11: discovery only reads: [findHooks] leaves the file tree, the working
    directory, the privileges and the umask as they were, so running any
    discovery afterwards returns what it would have returned before. *)
Theorem findHooks_read_only (root hookType root' hookType' : string) (w : World) :
  let w' := snd (findHooks root hookType w) in
  tree w' = tree w /\ cwd w' = cwd w
  /\ privileged w' = privileged w /\ umask w' = umask w
  /\ fst (findHooks root' hookType' w') = fst (findHooks root' hookType' w).
Proof.
  cbv zeta.
  assert (H : tree (snd (findHooks root hookType w)) = tree w
              /\ cwd (snd (findHooks root hookType w)) = cwd w
              /\ privileged (snd (findHooks root hookType w)) = privileged w
              /\ umask (snd (findHooks root hookType w)) = umask w).
  { rewrite findHooks_unfold.
    destruct (File_Readdir _ w); cbn; repeat split. }
  destruct H as (Ht & Hc & Hp & Hu). repeat (split; [assumption|]).
  rewrite !(findHooks_unfold root' hookType').
  rewrite (File_Readdir_ext _ w) by assumption.
  now destruct (File_Readdir _ w).
Qed.




Lemma leb_cases (a b : string) :
  String.leb a b = true -> a = b \/ String.ltb a b = true.
Proof.
  unfold String.leb, String.ltb.
  destruct (String.compare a b) eqn:E; try discriminate; auto.
  left. now apply String.compare_eq_iff.
Qed.

Lemma leb_trans (a b c : string) :
  String.leb a b = true -> String.leb b c = true -> String.leb a c = true.
Proof.
  intros Hab Hbc.
  destruct (leb_cases _ _ Hab) as [->|Hab']; [assumption|].
  destruct (leb_cases _ _ Hbc) as [<-|Hbc']; [assumption|].
  apply ltb_leb. eapply ltb_trans; eassumption.
Qed.

Lemma sortByName_strongly (l : list os.FileInfo) :
  StronglySorted nameLe (sortByName l).
Proof.
  apply Sorted_StronglySorted; [|apply sortByName_sorted].
  intros a b c. unfold nameLe. apply leb_trans.
Qed.

Lemma names_filter_sorted (keep : os.FileInfo -> bool) (l : list os.FileInfo) :
  StronglySorted nameLe l ->
  StronglySorted (fun a b => String.leb a b = true)
    (map os.Name (filter keep l)).
Proof.
  induction 1 as [|x l Hs IH Hall]; cbn [filter map]; [constructor|].
  destruct (keep x); [|assumption]. cbn [map]. constructor; [assumption|].
  apply Forall_map. apply Forall_forall. intros y Hy.
  apply filter_In in Hy as [Hy _].
  rewrite Forall_forall in Hall. now apply Hall.
Qed.

(** X13: the descriptors come out in ascending byte order of their file
    names ([Args[0]]), whatever order the directory keeps its entries in. *)
Theorem findHooks_names_ascending (root hookType : string) (w : World) :
  StronglySorted (fun a b => String.leb a b = true)
    (map hookName (fst (findHooks root hookType w))).
Proof.
  rewrite findHooks_unfold.
  destruct (File_Readdir _ w) as [err|raw]; cbn [fst map]; [constructor|].
  rewrite map_map. unfold hookName, hookFor. cbn [specs.Hook_Args hd].
  apply names_filter_sorted, sortByName_strongly.
Qed.

(** X14: every descriptor returned has exactly two arguments, the file name
    and the hook type, has as path the hook root joined with the hook type
    and that file name, and carries no environment and no timeout. *)
Theorem findHooks_descriptor_shape (root hookType : string) (w : World) :
  Forall (fun h =>
            specs.Hook_Args h = [hookName h; hookType]
            /\ specs.Hook_Path h = path.Join [root; hookType; hookName h]
            /\ specs.Hook_Env h = [] /\ specs.Hook_Timeout h = None)
    (fst (findHooks root hookType w)).
Proof.
  rewrite findHooks_unfold.
  destruct (File_Readdir _ w) as [err|raw]; cbn [fst]; [constructor|].
  apply Forall_map. apply Forall_forall. intros fi _.
  unfold hookFor, hookName. cbn.
  repeat split. apply Join_nested.
Qed.

(** ** [isValidHook]: the bits it looks at *)

(** X15: the verdict depends on five bits of the mode word only, the
    directory and symbolic-link bits and the three execute bits: the name,
    the read and write bits, setuid, setgid and sticky, and every other
    type bit (device, named pipe, socket) never change it. *)
Theorem isValidHook_bits_only (file file' : os.FileInfo) :
  entryIsDirectory file = entryIsDirectory file' ->
  entryIsSymlink file = entryIsSymlink file' ->
  ownerExec file = ownerExec file' ->
  groupExec file = groupExec file' ->
  otherExec file = otherExec file' ->
  isValidHook file = isValidHook file'.
Proof.
  intros Hd Hs Ho Hg Hx. rewrite !isValidHook_bits. unfold anyExec.
  now rewrite Hd, Hs, Ho, Hg, Hx.
Qed.

Lemma isValidHook_bits_only_witness :
  isValidHook {| os.Name := "a"; os.Mode := 493%Z |}
  = isValidHook {| os.Name := "fifo";
                   os.Mode := Z.lor (Z.shiftl 1 25) (Z.lor (Z.shiftl 1 23) 73) |}.
Proof.
  apply isValidHook_bits_only; reflexivity.
Defined.

(** ** The canonical config path of a plain container id *)

Lemma append_inj_l (a x y : string) : (a ++ x = a ++ y)%string -> x = y.
Proof. induction a as [|c a IH]; cbn; [auto|]. intros H. injection H. auto. Qed.

Lemma slashFree_prefix_inj (x y s s' : string) :
  slashFree x = true -> slashFree y = true ->
  (x ++ "/" ++ s = y ++ "/" ++ s')%string -> x = y.
Proof.
  revert y. induction x as [|c x IH]; intros [|c' y] Hx Hy H; cbn in *.
  - reflexivity.
  - injection H as <- _. discriminate.
  - injection H as -> _. discriminate.
  - injection H as -> H.
    apply andb_prop in Hx as [_ Hx]. apply andb_prop in Hy as [_ Hy].
    f_equal. now apply IH.
Qed.

Lemma CanonicalConfigPath_plain_form (containerId : string) :
  normal containerId = true ->
  CanonicalConfigPath containerId
  = ("/run/libcontainer/" ++ containerId ++ "/config.json")%string.
Proof.
  intros Hn. unfold CanonicalConfigPath, filepath.Join.
  change (path.Join [ociConfigBasePath; containerId; ociConfigFile])
    with (path.Clean (ociConfigBasePath ++ "/"
                        ++ (containerId ++ "/" ++ ociConfigFile))).
  unfold path.Clean.
  change (path.isRooted
            (ociConfigBasePath ++ "/" ++ (containerId ++ "/" ++ ociConfigFile)))
    with true.
  change ((ociConfigBasePath ++ "/" ++ (containerId ++ "/" ++ ociConfigFile)
           =? "")%string) with false.
  cbv iota. unfold path.cleanElems.
  rewrite !split_app_slash, (split_slashFree _ (normal_slashFree _ Hn)).
  change (path.split ociConfigBasePath) with [""; "run"; "libcontainer"].
  change (path.split ociConfigFile) with ["config.json"].
  rewrite fold_left_app.
  change (fold_left (path.cleanStep true) [""; "run"; "libcontainer"] [])
    with ["libcontainer"; "run"].
  cbn [app fold_left]. rewrite (normal_push true _ containerId Hn).
  rewrite (normal_push true _ "config.json" eq_refl).
  reflexivity.
Qed.

(** X16: for a container id that is a plain path element (non-empty, no
    slash, not "." or ".."), the config file is
    /run/libcontainer/<id>/config.json, and two such ids have the same
    config file only if they are the same id. *)
Theorem CanonicalConfigPath_plain (id1 id2 : string) :
  normal id1 = true -> normal id2 = true ->
  CanonicalConfigPath id1
  = ("/run/libcontainer/" ++ id1 ++ "/config.json")%string
  /\ (CanonicalConfigPath id1 = CanonicalConfigPath id2 <-> id1 = id2).
Proof.
  intros H1 H2. split; [now apply CanonicalConfigPath_plain_form|].
  split; [|now intros ->].
  rewrite !CanonicalConfigPath_plain_form by assumption.
  intros H. apply append_inj_l in H.
  eapply slashFree_prefix_inj; [| |exact H]; now apply normal_slashFree.
Qed.

Lemma CanonicalConfigPath_plain_witness :
  CanonicalConfigPath "c1" = "/run/libcontainer/c1/config.json"
  /\ (CanonicalConfigPath "c1" = CanonicalConfigPath "c2" <-> "c1" = "c2").
Proof.
  apply (CanonicalConfigPath_plain "c1" "c2"); reflexivity.
Defined.

(** ** [changeToBundlePath] with a bare [Root.Path] *)

Lemma dirPrefix_slashFree (s : string) :
  slashFree s = true -> path.dirPrefix s = "".
Proof.
  induction s as [|c s IH]; [reflexivity|].
  cbn [slashFree path.dirPrefix]. intros H. apply andb_prop in H as [Hc Hs].
  apply negb_true_iff in Hc. now rewrite (IH Hs), Hc.
Qed.

Lemma resolve_dot (w : World) :
  path.isRooted (cwd w) = true -> resolve w "." = resolve w (cwd w).
Proof.
  intros Hr. rewrite (resolve_rooted w (cwd w)) by assumption.
  unfold resolve, path.cleanElems. cbn [path.isRooted].
  now rewrite fold_left_app.
Qed.

(** X17: when [Root.Path] holds no slash, the bundle path is "." and a
    successful call leaves the process in the directory it was in (its
    absolute working directory, cleaned). *)
Theorem bare_root_path_stays (s : specs.Spec) (r : specs.Root)
    (containerId d : string) (w w' : World) :
  specs.Spec_Root s = Some r ->
  slashFree (specs.Root_Path r) = true ->
  path.isRooted (cwd w) = true ->
  changeToBundlePath (Some s) containerId w = ((d, None), w') ->
  filepath.Dir (specs.Root_Path r) = "."
  /\ w' = setCwd w (pathString (resolve w (cwd w))).
Proof.
  intros Hr Hsf Hroot H.
  assert (Hdir : filepath.Dir (specs.Root_Path r) = ".").
  { unfold filepath.Dir, path.Dir. now rewrite dirPrefix_slashFree. }
  split; [assumption|].
  destruct (changeToBundlePath_cases (Some s) containerId w)
    as [[_ E] | [(_ & _ & E) | [(_ & _ & _ & E)
                               | (s0 & r0 & _ & Hs & Hr0 & _ & _ & E)]]];
    rewrite E in H; try discriminate.
  injection Hs as <-. rewrite Hr in Hr0. injection Hr0 as <-.
  rewrite Hdir in H.
  destruct (os_Chdir "." w) as [err w2] eqn:Hcd.
  injection H as _ -> <-.
  apply os_Chdir_success in Hcd as [_ ->]. now rewrite resolve_dot.
Qed.

Lemma bare_root_path_stays_witness :
  filepath.Dir "rootfs" = "."
  /\ setCwd persistedWorld "/"
     = setCwd persistedWorld
         (pathString (resolve persistedWorld (cwd persistedWorld))).
Proof.
  apply (bare_root_path_stays specRel
           {| specs.Root_Path := "rootfs"; specs.Root_Readonly := false |}
           "c1" "/" persistedWorld (setCwd persistedWorld "/")).
  - reflexivity.
  - reflexivity.
  - reflexivity.
  - vm_compute. reflexivity.
Defined.
